(** * LinkedIn helper: a shallow embedding of [linkedin_scrape_and_apply.py]

    The script drives a browser through Selenium, harvests job links,
    extracts job records, ranks them against a resume and walks through the
    in-page application wizard.  This development embeds

    - the text helpers ([normalize] and the [str] methods it relies on),
    - the link harvester [scroll_container_collect_links],
    - the detail extractor [fetch_job_description],
    - the ranker [rank_jobs_by_similarity] over a store of Python dicts,
    - the application driver [click_easy_apply_and_fill],

    and proves properties of them.  The browser, scikit-learn's vectorizer
    and numpy's [argsort] are external to the repository: they appear as
    interfaces ([Browser], [Vectorizer], [ArgSort]) whose operations the
    embedded code calls exactly where the script does. *)

From Stdlib Require Import ZArith QArith Ascii String List Lia Bool Arith
  Permutation Sorted.
From stdpp Require Import base option list strings gmap.

Import ListNotations.
Local Open Scope string_scope.
Local Open Scope nat_scope.
Local Open Scope list_scope.

(* ===================================================================== *)
(** * Part I.  Definitions                                                *)
(* ===================================================================== *)

(** ** Python [str]

    A [str] is modelled as a Stdlib [string]; each [ascii] stands for the
    code point of the same number (Latin-1 range).  *)

(** [str.isspace] for one character, which is also the class [\s] of the
    [re] module on [str] patterns: TAB..CR, FS..US, SPACE, NEL and NBSP. *)
Definition isspace (c : ascii) : bool :=
  let n := N_of_ascii c in
  ((9 <=? n) && (n <=? 13) || (28 <=? n) && (n <=? 32)
   || (n =? 133) || (n =? 160))%N.

(** [str.lower] on one character. *)
Definition lower_char (c : ascii) : ascii :=
  let n := N_of_ascii c in
  if ((65 <=? n) && (n <=? 90)
      || (192 <=? n) && (n <=? 222) && negb (n =? 215))%N
  then ascii_of_N (n + 32) else c.

Fixpoint lower (s : string) : string :=
  match s with
  | EmptyString => EmptyString
  | String c s' => String (lower_char c) (lower s')
  end.

Fixpoint lstrip (s : string) : string :=
  match s with
  | EmptyString => EmptyString
  | String c s' => if isspace c then lstrip s' else s
  end.

Fixpoint rstrip (s : string) : string :=
  match s with
  | EmptyString => EmptyString
  | String c s' =>
      match rstrip s' with
      | EmptyString => if isspace c then EmptyString else String c EmptyString
      | r => String c r
      end
  end.

(** [s.strip()] *)
Definition strip (s : string) : string := rstrip (lstrip s).

(** [re.sub(r'\s+', ' ', s)]: every maximal run of whitespace becomes one
    space.  [in_run] tells that the previous character belonged to a run
    whose replacement has been emitted already. *)
Fixpoint sub_ws_from (in_run : bool) (s : string) : string :=
  match s with
  | EmptyString => EmptyString
  | String c s' =>
      if isspace c
      then if in_run then sub_ws_from true s'
           else String " " (sub_ws_from true s')
      else String c (sub_ws_from false s')
  end.

Definition re_sub_ws (s : string) : string := sub_ws_from false s.

(** [normalize(s)], line 101. *)
Definition normalize (s : string) : string := re_sub_ws (strip s).

(** [needle in hay] *)
Fixpoint contains (needle hay : string) : bool :=
  String.prefix needle hay
  || match hay with
     | EmptyString => false
     | String _ hay' => contains needle hay'
     end.

(** [s.split(sep)[0]] for a one-character separator. *)
Fixpoint split_head (sep : ascii) (s : string) : string :=
  match s with
  | EmptyString => EmptyString
  | String c s' =>
      if Ascii.eqb c sep then EmptyString else String c (split_head sep s')
  end.

(** [s[:n]] for [n >= 0]. *)
Fixpoint str_take (n : nat) (s : string) : string :=
  match n, s with
  | S n', String c s' => String c (str_take n' s')
  | _, _ => EmptyString
  end.

Definition newline : string := String "010"%char EmptyString.

(** ["\n".join(texts)] *)
Definition join_lines (texts : list string) : string :=
  String.concat newline texts.

(** Python truthiness of a [str]. *)
Definition truthy (s : string) : bool :=
  match s with EmptyString => false | _ => true end.

(** *** What "normalized" means

    The three observations of the data model: no leading whitespace, no
    trailing whitespace, no two whitespace characters in a row. *)
Definition starts_ws (s : string) : bool :=
  match s with
  | EmptyString => false
  | String c _ => isspace c
  end.

Fixpoint ends_ws (s : string) : bool :=
  match s with
  | EmptyString => false
  | String c EmptyString => isspace c
  | String _ s' => ends_ws s'
  end.

Fixpoint has_ws_pair (s : string) : bool :=
  match s with
  | EmptyString => false
  | String c s' => isspace c && starts_ws s' || has_ws_pair s'
  end.

Definition is_normalized (s : string) : bool :=
  negb (starts_ws s) && negb (ends_ws s) && negb (has_ws_pair s).

(** A sharper shape used in the proofs: every whitespace character is a
    plain space and is followed by a non-blank character. *)
Fixpoint tidy_tail (s : string) : Prop :=
  match s with
  | EmptyString => True
  | String c s' =>
      (isspace c = true ->
       c = " "%char /\ s' <> EmptyString /\ starts_ws s' = false)
      /\ tidy_tail s'
  end.

Definition tidy (s : string) : Prop := starts_ws s = false /\ tidy_tail s.

(** ** The browser-automation interface

    Selenium's driver is an external collaborator.  The script uses it
    through the calls below.  Calls that only read the page are functions of
    the current [world]; calls that act on the page (navigation, scripts,
    waits, clicks, keystrokes) and the passing of time produce a new
    [world].  Any call may raise: [Raise] stands for a Python exception. *)

Inductive result (A : Type) : Type :=
| Ok (a : A)
| Raise.
Arguments Ok {A} a.
Arguments Raise {A}.

(** [selenium.webdriver.common.by.By] *)
Inductive By : Type := XPATH | TAG_NAME.

Definition locator : Type := By * string.

(** The two [expected_conditions] the script waits for. *)
Inductive condition : Type :=
| presence_of_element_located (l : locator)
| element_to_be_clickable (l : locator).

(** The console lines of the application driver.  [render] gives the text
    [print] writes; the text of a caught exception, which some lines end
    with, is left out. *)
Inductive message : Type :=
| NoEasyApplyFound (job_url : string)
| ClickedEasyApply
| ClickFailed
| UploadedResume
| ResumeUploadFailed
| FilledTextareaForCover
| FilledFirstVisibleTextarea
| CoverTextareaFillFailed
| FilledContenteditable
| FilledPhone
| ReachedFinalStep (txt : string)
| AutoSubmitted
| AutoSubmitFailed
| PausingForManualReview
| DidNotFindFinalSubmit.

Definition render (m : message) : string :=
  match m with
  | NoEasyApplyFound job_url => " No Easy Apply found: " +:+ job_url
  | ClickedEasyApply => " Clicked Easy Apply"
  | ClickFailed => " Click failed:"
  | UploadedResume => " Uploaded resume"
  | ResumeUploadFailed => " Resume upload failed:"
  | FilledTextareaForCover => " Filled textarea for cover"
  | FilledFirstVisibleTextarea => " Filled first visible textarea"
  | CoverTextareaFillFailed => " Cover textarea fill failed:"
  | FilledContenteditable => " Filled contenteditable cover area"
  | FilledPhone => " Filled phone"
  | ReachedFinalStep txt => " Reached final step (button text): " +:+ txt
  | AutoSubmitted => " Auto-submitted"
  | AutoSubmitFailed => " Auto-submit failed:"
  | PausingForManualReview =>
      " Pausing for manual review. Please submit manually in the browser."
  | DidNotFindFinalSubmit =>
      " Did not find final submit; exiting modal and continuing."
  end.

Class Browser : Type := {
  world : Type;
  elem : Type;
  (** [driver.get(url)] *)
  driver_get : string -> world -> world * result unit;
  (** [driver.execute_script(js)], with the number the script returns *)
  execute_script : string -> world -> world * result Z;
  (** [WebDriverWait(driver, timeout).until(condition)] *)
  wait_until : Z -> condition -> world -> world * result elem;
  (** [time.sleep(...)] : the page may change while the script sleeps *)
  time_sleep : world -> world;
  (** [driver.find_element(by, value)] *)
  find_element : locator -> world -> result elem;
  (** [driver.find_elements(by, value)] *)
  find_elements : locator -> world -> result (list elem);
  (** [el.text] *)
  el_text : elem -> world -> result string;
  (** [el.get_attribute(name)], [None] when the attribute is absent *)
  get_attribute : elem -> string -> world -> result (option string);
  (** [el.is_displayed()] and [el.is_enabled()] *)
  is_displayed : elem -> world -> result bool;
  is_enabled : elem -> world -> result bool;
  (** [el.click()], [el.clear()], [el.send_keys(text)] *)
  el_click : elem -> world -> world * result unit;
  el_clear : elem -> world -> world * result unit;
  el_send_keys : elem -> string -> world -> world * result unit
}.

Section Script.
Context {B : Browser}.

(** Everything the script does to the outside, in the order it happens:
    driver calls with their arguments, sleeps and console lines. *)
Inductive event : Type :=
| EGet (url : string)
| EScript (js : string)
| EWait (timeout : Z) (c : condition)
| ESleep
| EFindElement (l : locator)
| EFindElements (l : locator)
| EText (e : elem)
| EGetAttribute (e : elem) (name : string)
| EIsDisplayed (e : elem)
| EIsEnabled (e : elem)
| EClick (e : elem)
| EClear (e : elem)
| ESendKeys (e : elem) (text : string)
| EPrint (line : message).

(** A piece of script: from the current world to the world it leaves, the
    events it produced and its value or exception. *)
Definition M (A : Type) : Type := world -> world * list event * result A.

Definition ret {A} (a : A) : M A := fun w => (w, [], Ok a).

Definition raise {A} : M A := fun w => (w, [], Raise).

Definition bind {A C} (m : M A) (f : A -> M C) : M C :=
  fun w =>
    match m w with
    | (w1, t1, Ok a) =>
        match f a w1 with
        | (w2, t2, r) => (w2, t1 ++ t2, r)
        end
    | (w1, t1, Raise) => (w1, t1, Raise)
    end.

(** [try: m  except Exception: handler] *)
Definition try_except {A} (m : M A) (handler : M A) : M A :=
  fun w =>
    match m w with
    | (w1, t1, Ok a) => (w1, t1, Ok a)
    | (w1, t1, Raise) =>
        match handler w1 with
        | (w2, t2, r) => (w2, t1 ++ t2, r)
        end
    end.

(** Run [m] and hand its outcome to the continuation, for [try] blocks
    whose handler needs the variables assigned before the exception. *)
Definition attempt {A} (m : M A) : M (result A) :=
  fun w => match m w with (w1, t1, r) => (w1, t1, Ok r) end.

Definition query {A} (ev : event) (q : world -> result A) : M A :=
  fun w => (w, [ev], q w).

Definition action {A} (ev : event) (a : world -> world * result A) : M A :=
  fun w => match a w with (w1, r) => (w1, [ev], r) end.

Definition get (url : string) : M unit := action (EGet url) (driver_get url).
Definition script (js : string) : M Z := action (EScript js) (execute_script js).
Definition wait (timeout : Z) (c : condition) : M elem :=
  action (EWait timeout c) (wait_until timeout c).
Definition sleep : M unit := fun w => (time_sleep w, [ESleep], Ok tt).
Definition find1 (l : locator) : M elem := query (EFindElement l) (find_element l).
Definition find_all (l : locator) : M (list elem) :=
  query (EFindElements l) (find_elements l).
Definition text_of (e : elem) : M string := query (EText e) (el_text e).
Definition attribute (e : elem) (name : string) : M (option string) :=
  query (EGetAttribute e name) (get_attribute e name).
Definition displayed (e : elem) : M bool := query (EIsDisplayed e) (is_displayed e).
Definition enabled (e : elem) : M bool := query (EIsEnabled e) (is_enabled e).
Definition click (e : elem) : M unit := action (EClick e) (el_click e).
Definition clear (e : elem) : M unit := action (EClear e) (el_clear e).
Definition send_keys (e : elem) (s : string) : M unit :=
  action (ESendKeys e s) (el_send_keys e s).
Definition print (line : message) : M unit :=
  fun w => (w, [EPrint line], Ok tt).

End Script.

Declare Scope script_scope.
Delimit Scope script_scope with script.
Notation "x <- m ;; k" := (bind m (fun x => k))
  (at level 100, m at next level, right associativity) : script_scope.
Notation "m ;;; k" := (bind m (fun _ => k))
  (at level 100, right associativity) : script_scope.
Local Open Scope script_scope.

(** ** [collections.OrderedDict]

    An association list in insertion order; assigning to a key that is
    already present keeps its position. *)
Definition odict (V : Type) : Type := list (string * V).

Fixpoint odict_set {V} (k : string) (v : V) (d : odict V) : odict V :=
  match d with
  | [] => [(k, v)]
  | (k', v') :: d' =>
      if String.eqb k' k then (k', v) :: d' else (k', v') :: odict_set k v d'
  end.

Definition odict_keys {V} (d : odict V) : list string := map fst d.

(** [len(x)] as a Python integer. *)
Definition len {A} (l : list A) : Z := Z.of_nat (length l).

(** ** Link harvester: [scroll_container_collect_links], lines 132-156 *)

Section Harvester.
Context {B : Browser}.

Definition anchors_locator : locator :=
  (XPATH, "//a[contains(@href,'/jobs/view/')]").
Definition js_scroll_height : string := "return document.body.scrollHeight".
Definition js_scroll_by : string :=
  "window.scrollBy(0, document.body.scrollHeight*0.7);".

(** The stagnation bound of the [while] condition. *)
Definition max_tries : Z := 20.

(** [href and "/jobs/view/" in href] *)
Definition is_job_href (href : option string) : bool :=
  match href with
  | Some h => truthy h && contains "/jobs/view/" h
  | None => false
  end.

(** [href.split("?")[0]] *)
Definition canonical (h : string) : string := split_head "?" h.

(** The [for a in anchors] loop, lines 140-146; the [break] leaves it as
    soon as [max_links] keys are held. *)
Fixpoint scan_anchors (max_links : Z) (anchors : list elem)
    (links : odict bool) : M (odict bool) :=
  match anchors with
  | [] => ret links
  | a :: rest =>
      href <- attribute a "href" ;;
      if is_job_href href then
        let links' := odict_set (canonical (default "" href)) true links in
        if (len links' >=? max_links)%Z then ret links'
        else scan_anchors max_links rest links'
      else scan_anchors max_links rest links
  end.

(** The [while] loop, lines 137-155.  [fuel] bounds the number of
    iterations the model follows; [None] means the bound was reached
    before the loop condition failed. *)
Fixpoint harvest_loop (fuel : nat) (max_links : Z) (links : odict bool)
    (last_height tries : Z) : M (option (odict bool)) :=
  if negb ((len links <? max_links)%Z && (tries <? max_tries)%Z)
  then ret (Some links)
  else
    match fuel with
    | O => ret None
    | S fuel' =>
        anchors <- find_all anchors_locator ;;
        links' <- scan_anchors max_links anchors links ;;
        script js_scroll_by ;;;
        sleep ;;;
        new_height <- script js_scroll_height ;;
        if (new_height =? last_height)%Z
        then harvest_loop fuel' max_links links' last_height (tries + 1)%Z
        else harvest_loop fuel' max_links links' new_height 0%Z
    end.

Definition scroll_container_collect_links (fuel : nat) (max_links : Z)
    : M (option (list string)) :=
  last_height <- script js_scroll_height ;;
  r <- harvest_loop fuel max_links [] last_height 0%Z ;;
  ret (option_map odict_keys r).

End Harvester.

(** *** Pages that have run out of content

    The vocabulary of the harvester's termination property: the job links
    a page shows, the order in which links are first seen, and what the
    harvester meets round after round on a page that stops growing. *)

Fixpoint first_seen_from (seen ks : list string) : list string :=
  match ks with
  | [] => []
  | k :: ks' =>
      if existsb (String.eqb k) seen then first_seen_from seen ks'
      else k :: first_seen_from (seen ++ [k]) ks'
  end.

(** [ks] without its repetitions, each link at its first occurrence. *)
Definition first_seen (ks : list string) : list string := first_seen_from [] ks.

Section Exhaustion.
Context {B : Browser}.

(** The canonical job links among the anchors of the page, in document
    order, repetitions included. *)
Definition page_job_links (w : world) (ks : list string) : Prop :=
  exists anchors hrefs,
    find_elements anchors_locator w = Ok anchors
    /\ Forall2 (fun a h => get_attribute a "href" w = Ok h) anchors hrefs
    /\ ks = map (fun h => canonical (default "" h))
                (List.filter is_job_href hrefs).

(** One round of the harvester's page handling: scroll, sleep, measure. *)
Definition scroll_round (w : world) : world :=
  fst (execute_script js_scroll_height
         (time_sleep (fst (execute_script js_scroll_by w)))).

Definition is_scroll_request (e : event) : bool :=
  match e with
  | EScript js => String.eqb js js_scroll_by
  | _ => false
  end.

(** How many times a run asked the page to extend itself. *)
Definition scroll_requests (t : list event) : nat :=
  length (List.filter is_scroll_request t).

(** The page after [n] rounds of the harvester, starting from [w]. *)
Definition page_after (w : world) (n : nat) : world := Nat.iter n scroll_round w.

(** What the harvester meets in its first [N] rounds on the page [w]:
    round [n] finds the job links [ks n], its scroll request is carried
    out, and the extent it then measures is [hs n]. *)
Definition observed (w : world) (ks : nat -> list string) (hs : nat -> Z)
    (N : nat) : Prop :=
  forall n, n < N ->
    let wn := page_after w n in
    page_job_links wn (ks n)
    /\ (exists v, snd (execute_script js_scroll_by wn) = Ok v)
    /\ snd (execute_script js_scroll_height
              (time_sleep (fst (execute_script js_scroll_by wn)))) = Ok (hs n).

End Exhaustion.

(** The extent round [n] compares its measurement with: the one taken
    before the loop at first, the one of the round before afterwards. *)
Definition extent_before (h0 : Z) (hs : nat -> Z) (n : nat) : Z :=
  match n with
  | O => h0
  | S m => hs m
  end.

(** The page grew in round [n]. *)
Definition grew (h0 : Z) (hs : nat -> Z) (n : nat) : Prop :=
  hs n <> extent_before h0 hs n.

(** Round [K] opens the first stretch of twenty rounds without growth:
    every stretch of twenty rounds that starts earlier holds a round of
    growth before [K], and rounds [K] to [K + 19] measure no change.  With
    [K = 0] the page never grows. *)
Definition settles_after (h0 : Z) (hs : nat -> Z) (K : nat) : Prop :=
  (forall n, n < K -> exists m, n <= m < n + 20 /\ m < K /\ grew h0 hs m)
  /\ (forall n, K <= n < K + 20 -> hs n = extent_before h0 hs n).

(** The number of rounds without growth in a row that end with round
    [n - 1]: the value of [tries] when round [n] starts. *)
Fixpoint streak (h0 : Z) (hs : nat -> Z) (n : nat) : nat :=
  match n with
  | O => 0
  | S m =>
      if (hs m =? extent_before h0 hs m)%Z then S (streak h0 hs m) else 0
  end.

(** The links of the first [N] rounds, each once, in the order in which
    they were first seen. *)
Definition links_seen (ks : nat -> list string) (N : nat) : list string :=
  first_seen (concat (map ks (seq 0 N))).

(** ** Simulated sites

    A small browser for running the embedded script on concrete pages: a
    site is a sequence of frames (the page as it looks after each change),
    a frame is a list of nodes, and an element handle is the position of a
    node in the current frame.  Scrolling and clicking an advancing control
    move to the next frame; the last frame stays. *)

Record node : Type := {
  found_by : list locator;
  node_text : string;
  node_attrs : list (string * string);
  visible : bool;
  usable : bool;
  advances : bool
}.

Record frame : Type := { extent : Z; nodes : list node }.

Definition By_eqb (a b : By) : bool :=
  match a, b with
  | XPATH, XPATH | TAG_NAME, TAG_NAME => true
  | _, _ => false
  end.

Definition locator_eqb (a b : locator) : bool :=
  By_eqb (fst a) (fst b) && String.eqb (snd a) (snd b).

Definition frame_at (site : list frame) (w : nat) : frame :=
  nth w site (List.last site {| extent := 0; nodes := [] |}).

Definition node_at (site : list frame) (w e : nat) : result node :=
  match nth_error (nodes (frame_at site w)) e with
  | Some n => Ok n
  | None => Raise
  end.

Definition matches (l : locator) (n : node) : bool :=
  existsb (locator_eqb l) (found_by n).

Fixpoint positions_from (i : nat) (l : locator) (ns : list node) : list nat :=
  match ns with
  | [] => []
  | n :: ns' =>
      if matches l n then i :: positions_from (S i) l ns'
      else positions_from (S i) l ns'
  end.

Definition sim_find_all (site : list frame) (l : locator) (w : nat) : list nat :=
  positions_from 0 l (nodes (frame_at site w)).

Definition sim_find (site : list frame) (l : locator) (w : nat) : result nat :=
  match sim_find_all site l w with
  | e :: _ => Ok e
  | [] => Raise
  end.

Fixpoint assoc (name : string) (kvs : list (string * string)) : option string :=
  match kvs with
  | [] => None
  | (k, v) :: kvs' => if String.eqb k name then Some v else assoc name kvs'
  end.

Definition map_result {A C} (f : A -> C) (r : result A) : result C :=
  match r with
  | Ok a => Ok (f a)
  | Raise => Raise
  end.

Definition sim_wait (site : list frame) (c : condition) (w : nat) : result nat :=
  match c with
  | presence_of_element_located l => sim_find site l w
  | element_to_be_clickable l =>
      match sim_find site l w with
      | Ok e =>
          match node_at site w e with
          | Ok n => if visible n && usable n then Ok e else Raise
          | Raise => Raise
          end
      | Raise => Raise
      end
  end.

Definition sim_click (site : list frame) (e w : nat) : nat * result unit :=
  match node_at site w e with
  | Ok n =>
      if visible n && usable n
      then (if advances n then S w else w, Ok tt)
      else (w, Raise)
  | Raise => (w, Raise)
  end.

Definition sim_touch (site : list frame) (e w : nat) : nat * result unit :=
  (w, map_result (fun _ => tt) (node_at site w e)).

(** Navigation fails on anything that is not an http(s) address, as the
    driver does on a malformed URL. *)
Definition sim_get (url : string) (w : nat) : nat * result unit :=
  if String.prefix "http" url then (0, Ok tt) else (w, Raise).

Definition sim_script (site : list frame) (js : string) (w : nat)
    : nat * result Z :=
  if String.eqb js js_scroll_by then (S w, Ok 0%Z)
  else (w, Ok (extent (frame_at site w))).

Definition sim (site : list frame) : Browser := {|
  world := nat;
  elem := nat;
  driver_get := sim_get;
  execute_script := sim_script site;
  wait_until := fun _ c w => (w, sim_wait site c w);
  time_sleep := fun w => w;
  find_element := sim_find site;
  find_elements := fun l w => Ok (sim_find_all site l w);
  el_text := fun e w => map_result node_text (node_at site w e);
  get_attribute := fun e name w =>
    map_result (fun n => assoc name (node_attrs n)) (node_at site w e);
  is_displayed := fun e w => map_result visible (node_at site w e);
  is_enabled := fun e w => map_result usable (node_at site w e);
  el_click := sim_click site;
  el_clear := sim_touch site;
  el_send_keys := fun e _ w => sim_touch site e w
|}.

(** A node that is visible and enabled and does not change the page. *)
Definition plain (ls : list locator) (text : string)
    (attrs : list (string * string)) : node :=
  {| found_by := ls; node_text := text; node_attrs := attrs;
     visible := true; usable := true; advances := false |}.

(** A results page with three anchors, two of them to the same job. *)
Definition results_site : list frame :=
  [ {| extent := 900;
       nodes :=
         [ plain [anchors_locator] "ML Engineer"
             [("href", "https://www.linkedin.com/jobs/view/101?refId=a")];
           plain [anchors_locator] "Data Engineer"
             [("href", "https://www.linkedin.com/jobs/view/202")];
           plain [anchors_locator] "ML Engineer"
             [("href", "https://www.linkedin.com/jobs/view/101?refId=b")] ] |} ].

(** ** Python values and dicts

    The values the script stores in its job dicts are strings and, for the
    score, a float.  A finite float is a rational number, and the ranker
    only negates and compares scores, so [Q] stands for [float]. *)

Inductive value : Type :=
| VStr (s : string)
| VFloat (q : Q).

Abbreviation pydict := (gmap string value).

(** ** Detail extractor: [fetch_job_description], lines 158-221 *)

Section Extractor.
Context {B : Browser}.

Definition title_locator : locator := (XPATH, "//h1").
Definition company_locator : locator :=
  (XPATH, "//a[contains(@href,'/company/') or contains(@class,'topcard__org-name')]").
Definition flavor_locator : locator :=
  (XPATH, "//span[contains(@class,'topcard__flavor')]").
Definition job_details_locator : locator := (XPATH, "//div[@id='job-details']").

Definition desc_selectors : list string :=
  [ "//div[contains(@class,'description')]";
    "//div[contains(@class,'job-description')]";
    "//div[contains(@class,'jobs-description')]";
    "//div[contains(@class,'show-more-less-html__markup')]";
    "//section[contains(@class,'description')]" ].

(** [el = driver.find_element(...); x = el.text.strip()] *)
Definition stripped_text (l : locator) : M string :=
  el <- find1 l ;;
  t <- text_of el ;;
  ret (strip t).

(** The [for n in nodes] loop of lines 200-203.  It returns the list
    [texts] as the loop left it and tells whether the loop ran to its end
    ([true]) or was left by an exception of [n.text] ([false]). *)
Fixpoint scan_nodes (nodes : list elem) (texts : list string)
    : M (list string * bool) :=
  match nodes with
  | [] => ret (texts, true)
  | n :: rest =>
      r <- attempt (text_of n) ;;
      match r with
      | Ok t0 =>
          let t := strip t0 in
          scan_nodes rest (if 50 <? String.length t then texts ++ [t] else texts)
      | Raise => ret (texts, false)
      end
  end.

(** The [for sel in desc_selectors] loop of lines 197-207: [break] once
    [texts] is non-empty after a complete scan, [continue] on exception. *)
Fixpoint try_selectors (sels : list string) (texts : list string)
    : M (list string) :=
  match sels with
  | [] => ret texts
  | sel :: rest =>
      r <- attempt (find_all (XPATH, sel)) ;;
      match r with
      | Ok nodes =>
          scanned <- scan_nodes nodes texts ;;
          match scanned with
          | ((_ :: _) as texts', true) => ret texts'
          | (texts', _) => try_selectors rest texts'
          end
      | Raise => try_selectors rest texts
      end
  end.

(** Lines 209-215.  A [WebElement] is always truthy, so [if big:] holds
    whenever [find_element] returned. *)
Definition job_details_fallback (texts : list string) : M (list string) :=
  match texts with
  | [] =>
      try_except
        (big <- find1 job_details_locator ;;
         t <- text_of big ;;
         ret (texts ++ [t]))
        (ret texts)
  | _ => ret texts
  end.

Definition fetch_job_description (job_url : string) (timeout : Z) : M pydict :=
  get job_url ;;;
  try_except
    (wait timeout (presence_of_element_located (TAG_NAME, "body")) ;;; ret tt)
    (ret tt) ;;;
  sleep ;;;
  title <- try_except (stripped_text title_locator) (ret "") ;;
  company <- try_except (stripped_text company_locator)
               (try_except (stripped_text flavor_locator) (ret "")) ;;
  texts <- try_selectors desc_selectors [] ;;
  texts <- job_details_fallback texts ;;
  let desc := strip (join_lines texts) in
  ret (<["url" := VStr job_url]>
       (<["title" := VStr (normalize title)]>
        (<["company" := VStr (normalize company)]>
         (<["description" := VStr (normalize desc)]> ∅)))).

(** The page the extractor reads: the world after navigation, the wait
    for the body and the settling pause. *)
Definition loaded (job_url : string) (timeout : Z) (w : world) : world :=
  time_sleep
    (fst (wait_until timeout (presence_of_element_located (TAG_NAME, "body"))
            (fst (driver_get job_url w)))).

(** *** The description, as a function of the page

    The stripped texts of more than 50 characters among [nodes]. *)
Fixpoint qualifying (w : world) (nodes : list elem) : list string :=
  match nodes with
  | [] => []
  | n :: rest =>
      match el_text n w with
      | Ok t0 =>
          if 50 <? String.length (strip t0)
          then strip t0 :: qualifying w rest else qualifying w rest
      | Raise => qualifying w rest
      end
  end.

Definition strategy_nodes (w : world) (sel : string) : list elem :=
  match find_elements (XPATH, sel) w with
  | Ok nodes => nodes
  | Raise => []
  end.

Definition strategy_texts (w : world) (sel : string) : list string :=
  qualifying w (strategy_nodes w sel).

(** The texts of the first strategy that yields a qualifying text. *)
Fixpoint first_qualifying (w : world) (sels : list string) : list string :=
  match sels with
  | [] => []
  | sel :: rest =>
      match strategy_texts w sel with
      | [] => first_qualifying w rest
      | q => q
      end
  end.

Definition fallback_texts (w : world) : list string :=
  match find_element job_details_locator w with
  | Ok big =>
      match el_text big w with
      | Ok t => [t]
      | Raise => []
      end
  | Raise => []
  end.

Definition or_fallback (w : world) (texts : list string) : list string :=
  match texts with
  | [] => fallback_texts w
  | _ :: _ => texts
  end.

Definition description_of (w : world) : string :=
  normalize (join_lines (or_fallback w (first_qualifying w desc_selectors))).

(** The description as the specification words it: stop at the first
    strategy that yields any matching element, and fall back when no
    strategy yields a qualifying text. *)
Fixpoint first_matching (w : world) (sels : list string) : list elem :=
  match sels with
  | [] => []
  | sel :: rest =>
      match strategy_nodes w sel with
      | [] => first_matching w rest
      | nodes => nodes
      end
  end.

Definition no_qualifying_text (w : world) : bool :=
  forallb (fun sel => match strategy_texts w sel with [] => true | _ => false end)
          desc_selectors.

Definition description_as_specified (w : world) : string :=
  normalize
    (join_lines
       (if no_qualifying_text w then fallback_texts w
        else qualifying w (first_matching w desc_selectors))).

(** No element of a description strategy fails to give its text. *)
Definition texts_readable (w : world) : Prop :=
  forall sel n,
    In sel desc_selectors -> In n (strategy_nodes w sel) -> el_text n w <> Raise.

End Extractor.

Section ExtractorValues.
Context {B : Browser}.

(** The dict built on line 221. *)
Definition job_dict (job_url title company description : string) : pydict :=
  <["url" := VStr job_url]>
    (<["title" := VStr title]>
       (<["company" := VStr company]>
          (<["description" := VStr description]> ∅))).

(** The stripped text of the first element a locator finds. *)
Definition text_at (l : locator) (w : world) : result string :=
  match find_element l w with
  | Ok el => map_result strip (el_text el w)
  | Raise => Raise
  end.

Definition or_empty (r : result string) : string :=
  match r with
  | Ok s => s
  | Raise => ""
  end.

End ExtractorValues.

(** The job links [results_site] shows, in document order. *)
Definition results_links : list string :=
  [ "https://www.linkedin.com/jobs/view/101";
    "https://www.linkedin.com/jobs/view/202";
    "https://www.linkedin.com/jobs/view/101" ].

(** A results page that grows once: two anchors at first, and two more,
    on a longer page, from the first scroll on. *)
Definition growing_site : list frame :=
  [ {| extent := 900;
       nodes :=
         [ plain [anchors_locator] "ML Engineer"
             [("href", "https://www.linkedin.com/jobs/view/101?refId=a")];
           plain [anchors_locator] "Data Engineer"
             [("href", "https://www.linkedin.com/jobs/view/202")] ] |};
    {| extent := 1800;
       nodes :=
         [ plain [anchors_locator] "ML Engineer"
             [("href", "https://www.linkedin.com/jobs/view/101?refId=a")];
           plain [anchors_locator] "Data Engineer"
             [("href", "https://www.linkedin.com/jobs/view/202")];
           plain [anchors_locator] "Research Engineer"
             [("href", "https://www.linkedin.com/jobs/view/303")];
           plain [anchors_locator] "Platform Engineer"
             [("href", "https://www.linkedin.com/jobs/view/404?refId=c")] ] |} ].

(** The job links [growing_site] shows in round [n], and the extent the
    round measures. *)
Definition growing_links (n : nat) : list string :=
  match n with
  | O => [ "https://www.linkedin.com/jobs/view/101";
           "https://www.linkedin.com/jobs/view/202" ]
  | S _ => [ "https://www.linkedin.com/jobs/view/101";
             "https://www.linkedin.com/jobs/view/202";
             "https://www.linkedin.com/jobs/view/303";
             "https://www.linkedin.com/jobs/view/404" ]
  end.

Definition growing_extents (n : nat) : Z := 1800.

(** *** Job pages for the extractor *)

Definition long_text : string :=
  "We are looking for a machine learning engineer to join our computer vision team.".

(** A regular job page: heading, company link and a description block. *)
Definition job_site : list frame :=
  [ {| extent := 1200;
       nodes :=
         [ plain [title_locator] "  Senior   ML Engineer " [];
           plain [company_locator] "Acme  Corp" [("href", "/company/acme")];
           plain [(XPATH, "//div[contains(@class,'description')]")]
                 "About the job" [("class", "description__label")];
           plain [(XPATH, "//div[contains(@class,'description')]")]
                 long_text [("class", "description__text")] ] |} ].

(** A page whose only [description] block is a short label; the text of
    the posting sits in the rich-text container. *)
Definition label_site : list frame :=
  [ {| extent := 1200;
       nodes :=
         [ plain [(XPATH, "//div[contains(@class,'description')]")]
                 "About the job" [("class", "description__label")];
           plain [(XPATH, "//div[contains(@class,'show-more-less-html__markup')]")]
                 long_text [("class", "show-more-less-html__markup")] ] |} ].

Definition job_url_101 : string := "https://www.linkedin.com/jobs/view/101".

(** ** Similarity ranker: [rank_jobs_by_similarity], lines 224-242

    Job dicts live in a store and are handled through references, so that
    [j.copy()] and the assignment to [j_copy["score"]] are what they are in
    Python: an allocation and an update in place. *)

Abbreviation loc := nat.
Abbreviation heap := (list pydict).

(** [d.copy()]: a new dict with the same items. *)
Definition copy_dict (j : loc) (h : heap) : result (loc * heap) :=
  match h !! j with
  | Some d => Ok (length h, h ++ [d])
  | None => Raise
  end.

(** [d[key] = v], on the dict at [l]. *)
Definition setitem (l : loc) (key : string) (v : value) (h : heap) : heap :=
  alter (insert key v) l h.

(** scikit-learn, lines 229-234: the vectorizer is fitted on [docs] and
    every later row is multiplied with row 0.  [Raise] is the [ValueError]
    of an empty vocabulary. *)
Class Vectorizer : Type := {
  similarities : list string -> result (list Q)
}.

(** One similarity per document after the first. *)
Definition vectorizer_sound (V : Vectorizer) : Prop :=
  forall docs sims,
    similarities docs = Ok sims -> length sims = pred (length docs).

(** numpy, line 235: [np.argsort(a)] with the default [kind]. *)
Class ArgSort : Type := {
  argsort : list Q -> list nat
}.

(** What numpy promises of [np.argsort(a)]: the indices of [a], each once,
    in an order in which the values do not decrease.  The default kind,
    quicksort, makes no promise about the order of equal values. *)
Definition argsort_sound (S : ArgSort) : Prop :=
  forall a : list Q,
    Permutation (argsort a) (seq 0 (length a))
    /\ forall i j x y,
         i <= j -> argsort a !! i = Some x -> argsort a !! j = Some y ->
         (nth x a 0 <= nth y a 0)%Q.

(** [l[:k]] for a Python integer [k]: a negative [k] counts from the end. *)
Definition slice_to {A} (k : Z) (l : list A) : list A :=
  if (0 <=? k)%Z then take (Z.to_nat k) l
  else take (Z.to_nat (len l + k)) l.

Section Ranker.
Context {V : Vectorizer} {S : ArgSort}.

(** [j["title"] + " " + j["company"]] *)
Definition title_and_company (d : pydict) : result string :=
  match d !! "title", d !! "company" with
  | Some (VStr t), Some (VStr c) => Ok (t +:+ " " +:+ c)
  | _, _ => Raise
  end.

(** [j["description"] or j["title"] + " " + j["company"]].  A missing key
    is a [KeyError]; a non-zero float as description passes the [or] and
    fails at [docs[i].strip()]. *)
Definition doc_of (d : pydict) : result string :=
  match d !! "description" with
  | Some (VStr s) => if truthy s then Ok s else title_and_company d
  | Some (VFloat q) => if Qeq_bool q 0 then title_and_company d else Raise
  | None => Raise
  end.

Fixpoint job_docs (jobs : list loc) (h : heap) : result (list string) :=
  match jobs with
  | [] => Ok []
  | j :: rest =>
      match h !! j with
      | Some d =>
          match doc_of d, job_docs rest h with
          | Ok doc, Ok docs => Ok (doc :: docs)
          | _, _ => Raise
          end
      | None => Raise
      end
  end.

(** Lines 227-228: [if not docs[i].strip(): docs[i] = " "]. *)
Definition blank_to_space (doc : string) : string :=
  if truthy (strip doc) then doc else " ".

(** The loop of lines 237-241 over the selected indices. *)
Fixpoint rank_loop (jobs : list loc) (sims : list Q) (idxs : list nat)
    (ranked : list loc) (h : heap) : heap * result (list loc) :=
  match idxs with
  | [] => (h, Ok ranked)
  | idx :: rest =>
      match jobs !! idx, sims !! idx with
      | Some j, Some s =>
          match copy_dict j h with
          | Ok (j_copy, h1) =>
              let h2 := setitem j_copy "score" (VFloat s) h1 in
              rank_loop jobs sims rest (ranked ++ [j_copy]) h2
          | Raise => (h, Raise)
          end
      | _, _ => (h, Raise)
      end
  end.

(** Lines 225-228: the resume followed by one document per job. *)
Definition corpus (resume_text : string) (jobs : list loc) (h : heap)
    : result (list string) :=
  map_result (fun docs => map blank_to_space (resume_text :: docs))
             (job_docs jobs h).

Definition rank_jobs_by_similarity (resume_text : string) (jobs : list loc)
    (top_k : Z) (h : heap) : heap * result (list loc) :=
  match corpus resume_text jobs h with
  | Ok docs =>
      match similarities docs with
      | Ok sims =>
          let ranked_idx := argsort (map Qopp sims) in
          rank_loop jobs sims (slice_to top_k ranked_idx) [] h
      | Raise => (h, Raise)
      end
  | Raise => (h, Raise)
  end.

End Ranker.

(** The score stored in the dict at [l]. *)
Definition score_at (h : heap) (l : loc) : option Q :=
  match h !! l with
  | Some d =>
      match d !! "score" with
      | Some (VFloat q) => Some q
      | _ => None
      end
  | None => None
  end.

(** Scores in best-first order. *)
Definition descending (scores : list Q) : Prop :=
  forall i j x y,
    i <= j -> scores !! i = Some x -> scores !! j = Some y -> (y <= x)%Q.

(** The job a ranked record was copied from, with its score added. *)
Definition scored_copy_of (jobs : list loc) (sims : list Q) (h h' : heap)
    (l : loc) (idx : nat) : Prop :=
  exists j d,
    jobs !! idx = Some j /\ h !! j = Some d
    /\ h' !! l = Some (<["score" := VFloat (nth idx sims 0%Q)]> d).

(** *** Stand-ins for the two libraries

    A vectorizer that reads the similarity of a document off a table (and
    refuses a corpus of blank documents), and an index sort by insertion
    that keeps equal values in their original order. *)
Fixpoint table_score (table : list (string * Q)) (doc : string) : Q :=
  match table with
  | [] => 0%Q
  | (d, q) :: table' => if String.eqb d doc then q else table_score table' doc
  end.

Definition table_vectorizer (table : list (string * Q)) : Vectorizer := {|
  similarities := fun docs =>
    match docs with
    | [] => Raise
    | _ :: job_docs =>
        if forallb (fun d => negb (truthy (strip d))) docs then Raise
        else Ok (map (table_score table) job_docs)
    end
|}.

Fixpoint insert_idx (before : Q -> Q -> bool) (a : list Q) (i : nat)
    (l : list nat) : list nat :=
  match l with
  | [] => [i]
  | j :: l' =>
      if before (nth i a 0%Q) (nth j a 0%Q) then i :: j :: l'
      else j :: insert_idx before a i l'
  end.

Definition sort_idx (before : Q -> Q -> bool) (a : list Q) : list nat :=
  fold_right (insert_idx before a) [] (seq 0 (length a)).

(** Index [x] holds a value of [a] that is at most the one at [y]. *)
Definition value_le (a : list Q) (x y : nat) : Prop :=
  (nth x a 0 <= nth y a 0)%Q.

Definition ties_in_order : ArgSort := {| argsort := sort_idx Qle_bool |}.

Definition job_101 : pydict :=
  job_dict "https://www.linkedin.com/jobs/view/101" "ML Engineer" "Acme"
    "python machine learning".
Definition job_202 : pydict :=
  job_dict "https://www.linkedin.com/jobs/view/202" "Data Engineer" "Initech"
    "sql pipelines".
Definition job_303 : pydict :=
  job_dict "https://www.linkedin.com/jobs/view/303" "ML Engineer" "Globex"
    "python machine learning".

Definition three_jobs : heap := [job_101; job_202; job_303].

Definition score_table : list (string * Q) :=
  [ ("python machine learning", 3 # 4); ("sql pipelines", 1 # 4) ].

(** ** Application driver: [click_easy_apply_and_fill], lines 245-387 *)

Section Driver.
Context {B : Browser}.

(** [os.path.abspath], which depends on the working directory. *)
Variable abspath : string -> string.

Definition js_scroll_to : string := "window.scrollTo(0, 500);".
Definition easy_apply_locator : locator :=
  (XPATH, "//button[.//span[contains(text(),'Easy Apply')]]").
Definition easy_apply_loose_locator : locator :=
  (XPATH, "//button[contains(.,'Apply') and contains(.,'Easy')]").
Definition dialog_locator : locator := (XPATH, "//div[contains(@role,'dialog')]").
Definition file_input_locator : locator := (XPATH, "//input[@type='file']").
Definition textarea_locator : locator := (TAG_NAME, "textarea").
Definition contenteditable_locator : locator :=
  (XPATH, "//div[@contenteditable='true']").
Definition phone_locator : locator :=
  (XPATH, "//input[@type='tel' or contains(@name,'phone') or contains(@id,'phone')]").
Definition terminal_locator : locator :=
  (XPATH, "//button[.//span[contains(text(),'Submit') or contains(text(),'Apply') or contains(text(),'Done')]]").
Definition next_xpaths : list string :=
  [ "//button[.//span[contains(text(),'Next')]]";
    "//button[.//span[contains(text(),'Continue')]]" ].
Definition close_locator : locator :=
  (XPATH, "//button[contains(@aria-label,'Dismiss') or contains(@aria-label,'Close')]").

Definition cover_keywords : list string :=
  [ "cover"; "message"; "note"; "why"; "summary"; "additional"; "about" ].
Definition rich_keywords : list string := [ "cover"; "message"; "summary"; "why" ].
Definition terminal_keywords : list string := [ "submit"; "apply"; "done" ].
Definition max_steps : nat := 8.

(** [any(k in s for k in keywords)] *)
Definition any_in (keywords : list string) (s : string) : bool :=
  existsb (fun k => contains k s) keywords.

(** Truthiness of an optional string argument ([None] and [""] are false). *)
Definition given (arg : option string) : bool :=
  match arg with
  | Some s => truthy s
  | None => false
  end.

(** [safe_send_keys(el, text)], lines 245-250 *)
Definition safe_send_keys (el : elem) (text : string) : M unit :=
  try_except (clear el) (ret tt) ;;;
  send_keys el text.

(** [(el.get_attribute(name) or "").lower()] *)
Definition attr_lower (el : elem) (name : string) : M string :=
  a <- attribute el name ;;
  ret (lower (default "" a)).

(** Lines 259-269: the primary locator, waited for, then the looser one. *)
Definition seek_entry : M (option elem) :=
  try_except
    (e <- wait 4 (element_to_be_clickable easy_apply_locator) ;; ret (Some e))
    (try_except
       (e <- find1 easy_apply_loose_locator ;; ret (Some e))
       (ret None)).

(** Lines 289-294 *)
Fixpoint upload_first_visible (path : string) (inputs : list elem) : M unit :=
  match inputs with
  | [] => ret tt
  | fi :: rest =>
      shown <- displayed fi ;;
      if shown then
        send_keys fi (abspath path) ;;;
        print UploadedResume ;;;
        sleep
      else upload_first_visible path rest
  end.

(** Lines 286-296 *)
Definition upload_resume (resume_path : option string) : M unit :=
  if given resume_path then
    try_except
      (inputs <- find_all file_input_locator ;;
       upload_first_visible (default "" resume_path) inputs)
      (print ResumeUploadFailed)
  else ret tt.

(** Lines 302-309; the value is [filled]. *)
Fixpoint fill_keyword_area (cover_text : string) (areas : list elem) : M bool :=
  match areas with
  | [] => ret false
  | ta :: rest =>
      ph <- attr_lower ta "placeholder" ;;
      name <- attr_lower ta "name" ;;
      if existsb (fun k => contains k ph || contains k name) cover_keywords then
        safe_send_keys ta cover_text ;;;
        print FilledTextareaForCover ;;;
        ret true
      else fill_keyword_area cover_text rest
  end.

(** Lines 311-316 *)
Fixpoint fill_first_visible (cover_text : string) (areas : list elem) : M unit :=
  match areas with
  | [] => ret tt
  | ta :: rest =>
      shown <- displayed ta ;;
      if shown then
        safe_send_keys ta cover_text ;;;
        print FilledFirstVisibleTextarea
      else fill_first_visible cover_text rest
  end.

(** Lines 299-318 *)
Definition fill_textareas (cover_text : string) : M unit :=
  try_except
    (textareas <- find_all textarea_locator ;;
     filled <- fill_keyword_area cover_text textareas ;;
     if negb filled && negb (length textareas =? 0)
     then fill_first_visible cover_text textareas
     else ret tt)
    (print CoverTextareaFillFailed).

(** Lines 323-328 *)
Fixpoint fill_rich_area (cover_text : string) (divs : list elem) : M unit :=
  match divs with
  | [] => ret tt
  | d :: rest =>
      aria <- attr_lower d "aria-label" ;;
      if any_in rich_keywords aria then
        click d ;;;
        send_keys d (str_take 1000 cover_text) ;;;
        print FilledContenteditable
      else fill_rich_area cover_text rest
  end.

(** Lines 320-330: not guarded by [filled]. *)
Definition fill_rich_areas (cover_text : string) : M unit :=
  if truthy (strip cover_text) then
    try_except
      (divs <- find_all contenteditable_locator ;;
       fill_rich_area cover_text divs)
      (ret tt)
  else ret tt.

(** Lines 298-330 *)
Definition fill_cover (cover_text : option string) : M unit :=
  if given cover_text then
    fill_textareas (default "" cover_text) ;;;
    fill_rich_areas (default "" cover_text)
  else ret tt.

(** Lines 335-339 *)
Fixpoint fill_first_phone (phone : string) (inputs : list elem) : M unit :=
  match inputs with
  | [] => ret tt
  | ip :: rest =>
      shown <- displayed ip ;;
      if shown then
        safe_send_keys ip phone ;;;
        print FilledPhone
      else fill_first_phone phone rest
  end.

(** Lines 332-341 *)
Definition fill_phone (phone : option string) : M unit :=
  if given phone then
    try_except
      (inputs <- find_all phone_locator ;;
       fill_first_phone (default "" phone) inputs)
      (ret tt)
  else ret tt.

(** What one look for the terminal control decides: [Return b] is the
    [return b] of the function, [Fallthrough] goes on to Next/Continue. *)
Inductive decision : Type :=
| Return (b : bool)
| Fallthrough.

(** Lines 348-368 *)
Definition terminal_check (auto_submit : bool) : M decision :=
  try_except
    (submit_btn <- find1 terminal_locator ;;
     t <- text_of submit_btn ;;
     let txt := lower t in
     if any_in terminal_keywords txt then
       print (ReachedFinalStep txt) ;;;
       if auto_submit then
         try_except
           (click submit_btn ;;;
            print AutoSubmitted ;;;
            sleep ;;;
            ret (Return true))
           (print AutoSubmitFailed ;;;
            ret (Return false))
       else
         print PausingForManualReview ;;;
         sleep ;;;
         ret (Return true)
     else ret Fallthrough)
    (ret Fallthrough).

(** Lines 370-377; the value is [clicked]. *)
Fixpoint click_next (xpaths : list string) : M bool :=
  match xpaths with
  | [] => ret false
  | xp :: rest =>
      r <- attempt
             (btn <- find1 (XPATH, xp) ;;
              shown <- displayed btn ;;
              usable_too <- (if shown then enabled btn else ret false) ;;
              if usable_too then
                click btn ;;;
                sleep ;;;
                ret true
              else ret false) ;;
      match r with
      | Ok true => ret true
      | _ => click_next rest
      end
  end.

(** Lines 345-379: [Some b] when the loop returned [b] from the function,
    [None] when it ended. *)
Fixpoint step_loop (auto_submit : bool) (steps : nat) : M (option bool) :=
  match steps with
  | O => ret None
  | S steps' =>
      sleep ;;;
      d <- terminal_check auto_submit ;;
      match d with
      | Return b => ret (Some b)
      | Fallthrough =>
          clicked <- click_next next_xpaths ;;
          if clicked then step_loop auto_submit steps' else ret None
      end
  end.

(** Lines 380-387 *)
Definition abandon : M bool :=
  print DidNotFindFinalSubmit ;;;
  try_except (close_btn <- find1 close_locator ;; click close_btn) (ret tt) ;;;
  ret false.

(** Lines 278-387, after the entry control has been activated. *)
Definition fill_and_step (resume_path cover_text phone : option string)
    (auto_submit : bool) : M bool :=
  sleep ;;;
  try_except (wait 6 (presence_of_element_located dialog_locator) ;;; ret tt)
             (ret tt) ;;;
  sleep ;;;
  upload_resume resume_path ;;;
  fill_cover cover_text ;;;
  fill_phone phone ;;;
  r <- step_loop auto_submit max_steps ;;
  match r with
  | Some b => ret b
  | None => abandon
  end.

Definition click_easy_apply_and_fill (job_url : string)
    (resume_path cover_text phone : option string) (auto_submit : bool)
    : M bool :=
  get job_url ;;;
  sleep ;;;
  script js_scroll_to ;;;
  sleep ;;;
  easy_btn <- seek_entry ;;
  match easy_btn with
  | None =>
      print (NoEasyApplyFound job_url) ;;;
      ret false
  | Some btn =>
      clicked <- attempt (click btn) ;;
      match clicked with
      | Raise =>
          print ClickFailed ;;;
          ret false
      | Ok _ =>
          print ClickedEasyApply ;;;
          fill_and_step resume_path cover_text phone auto_submit
      end
  end.

(** The keystrokes a run sent, in order. *)
Fixpoint keys_sent (t : list event) : list (elem * string) :=
  match t with
  | [] => []
  | ESendKeys e s :: t' => (e, s) :: keys_sent t'
  | _ :: t' => keys_sent t'
  end.

(** The clicks of a run, in order. *)
Fixpoint clicks (t : list event) : list elem :=
  match t with
  | [] => []
  | EClick e :: t' => e :: clicks t'
  | _ :: t' => clicks t'
  end.

(** Whether a free-text area is a keyword match, as the driver reads it
    off the page. *)
Definition attr_lower_at (w : world) (el : elem) (name : string) : result string :=
  map_result (fun a => lower (default "" a)) (get_attribute el name w).

Definition keyword_area (w : world) (ta : elem) : result bool :=
  match attr_lower_at w ta "placeholder", attr_lower_at w ta "name" with
  | Ok ph, Ok name =>
      Ok (existsb (fun k => contains k ph || contains k name) cover_keywords)
  | _, _ => Raise
  end.

Definition rich_area (w : world) (d : elem) : result bool :=
  map_result (any_in rich_keywords) (attr_lower_at w d "aria-label").

(** Events of the field-fill phase and of the step loop: keystrokes,
    clearing, element lists, attribute, visibility and text reads. *)
Definition fill_or_step_event (ev : event) : bool :=
  match ev with
  | ESendKeys _ _ | EClear _ | EFindElements _ | EGetAttribute _ _
  | EIsDisplayed _ | EIsEnabled _ | EText _ => true
  | _ => false
  end.

End Driver.

(** *** The entry control *)

Section EntryControl.
Context {B : Browser}.

(** The entry control of the page at [w]: the primary locator, waited for,
    else the looser one; with the world the wait leaves. *)
Definition entry_point (w : world) : world * option elem :=
  match wait_until 4 (element_to_be_clickable easy_apply_locator) w with
  | (w1, Ok e) => (w1, Some e)
  | (w1, Raise) =>
      (w1, match find_element easy_apply_loose_locator w1 with
           | Ok e => Some e
           | Raise => None
           end)
  end.

(** No entry control is found, or the one found cannot be clicked. *)
Definition no_activatable_entry (w : world) : Prop :=
  match entry_point w with
  | (w1, Some btn) => snd (el_click btn w1) = Raise
  | (_, None) => True
  end.

End EntryControl.

(** *** Sites for the application driver *)

Definition control (ls : list locator) (text : string) : node :=
  {| found_by := ls; node_text := text; node_attrs := [];
     visible := true; usable := true; advances := true |}.

Definition next_locator : locator :=
  (XPATH, "//button[.//span[contains(text(),'Next')]]").

(** A posting whose wizard shows its submit control on the third step.
    The first step has two free-text areas, the second of which asks why
    the candidate is a fit. *)
Definition wizard_site : list frame :=
  [ {| extent := 1200;
       nodes := [ control [easy_apply_locator] "Easy Apply" ] |};
    {| extent := 1200;
       nodes := [ plain [textarea_locator] "" [("placeholder", "Headline")];
                  plain [textarea_locator] ""
                        [("placeholder", "Why are you a fit?")];
                  control [next_locator] "Next" ] |};
    {| extent := 1200;
       nodes := [ control [next_locator] "Next" ] |};
    {| extent := 1200;
       nodes := [ plain [] "Review your application" [];
                  plain [terminal_locator] "Submit application" [] ] |} ].

(** A posting without an Easy Apply control. *)
Definition external_site : list frame :=
  [ {| extent := 1200;
       nodes := [ plain [title_locator] "Data Engineer" [] ] |} ].

(** A form with a keyword free-text area and a rich-text region. *)
Definition rich_site : list frame :=
  [ {| extent := 1200;
       nodes := [ plain [textarea_locator] ""
                        [("placeholder", "Why are you a fit?")];
                  plain [contenteditable_locator] ""
                        [("aria-label", "Message to the hiring team")] ] |} ].

(** A form whose only field is a rich-text region labelled with keywords
    of the free-text list that the rich-text list lacks. *)
Definition notes_site : list frame :=
  [ {| extent := 1200;
       nodes := [ plain [contenteditable_locator] ""
                        [("aria-label", "Additional notes about you")] ] |} ].

Definition cover_letter : string := "I build computer vision models.".

Section Pausing.
Context {B : Browser}.








End Pausing.

(** A stand-in for [os.path.abspath] when the path is absolute already. *)
Definition path_as_given (path : string) : string := path.

(** The events of a run. *)
Definition events_of {B : Browser} {A} (run : world * list event * result A)
    : list event :=
  snd (fst run).

(** The world a run leaves. *)
Definition world_after {B : Browser} {A} (run : world * list event * result A)
    : world :=
  fst (fst run).

(** ** Further vocabulary *)

(** Keys without repetition and without a query part. *)
Definition clean_links (links : odict bool) : Prop :=
  List.NoDup (odict_keys links)
  /\ Forall (fun k => contains "?" k = false) (odict_keys links).



(* ===================================================================== *)
(** * Part II.  Theorems                                                  *)
(* ===================================================================== *)

(** ** Text normalizer *)

Lemma isspace_space : isspace " " = true.
Proof. reflexivity. Qed.

Lemma lstrip_starts (s : string) : starts_ws (lstrip s) = false.
Proof.
  induction s as [|c s IH]; simpl; [reflexivity|].
  destruct (isspace c) eqn:E; [exact IH | simpl; exact E].
Qed.

Lemma rstrip_ends (s : string) : ends_ws (rstrip s) = false.
Proof.
  induction s as [|c s IH]; simpl; [reflexivity|].
  destruct (rstrip s) as [|d r] eqn:E.
  - destruct (isspace c) eqn:Ec; simpl; [reflexivity | exact Ec].
  - simpl in *. exact IH.
Qed.

Lemma rstrip_starts (s : string) :
  starts_ws s = false -> starts_ws (rstrip s) = false.
Proof.
  destruct s as [|c s]; simpl; [reflexivity|]. intros Hc.
  destruct (rstrip s); [rewrite Hc|]; simpl; exact Hc.
Qed.

Lemma rstrip_fix (s : string) : ends_ws s = false -> rstrip s = s.
Proof.
  induction s as [|c s IH]; simpl; [reflexivity|].
  destruct s as [|d s'].
  - intros ->. reflexivity.
  - intros H. rewrite (IH H). reflexivity.
Qed.

Lemma lstrip_fix (s : string) : starts_ws s = false -> lstrip s = s.
Proof.
  destruct s as [|c s]; simpl; [reflexivity|]. intros ->. reflexivity.
Qed.

Lemma strip_fix (s : string) :
  starts_ws s = false -> ends_ws s = false -> strip s = s.
Proof.
  intros H1 H2. unfold strip. rewrite (lstrip_fix _ H1). apply rstrip_fix, H2.
Qed.

Lemma strip_edges (s : string) :
  starts_ws (strip s) = false /\ ends_ws (strip s) = false.
Proof.
  split; [apply rstrip_starts, lstrip_starts | apply rstrip_ends].
Qed.

Lemma sub_ws_skip (s : string) :
  starts_ws s = false -> sub_ws_from true s = sub_ws_from false s.
Proof.
  destruct s as [|c s]; simpl; [reflexivity|]. intros ->. reflexivity.
Qed.

Lemma sub_ws_cons (b : bool) (c : ascii) (r : string) :
  sub_ws_from b (String c r)
  = if isspace c
    then if b then sub_ws_from true r else String " " (sub_ws_from true r)
    else String c (sub_ws_from false r).
Proof. reflexivity. Qed.

Lemma sub_ws_shape (s : string) :
  ends_ws s = false ->
  (forall b, tidy_tail (sub_ws_from b s))
  /\ starts_ws (sub_ws_from true s) = false
  /\ (s <> EmptyString -> sub_ws_from true s <> EmptyString).
Proof.
  induction s as [|c s IH]; intros Hend.
  - simpl. split; [intros _; exact I|]. split; [reflexivity|congruence].
  - destruct s as [|d s'].
    + simpl in Hend.
      split; [|split].
      * intros b. rewrite sub_ws_cons, Hend. simpl. split; [congruence|exact I].
      * rewrite sub_ws_cons, Hend. exact Hend.
      * intros _. rewrite sub_ws_cons, Hend. discriminate.
    + assert (Hend' : ends_ws (String d s') = false) by exact Hend.
      destruct (IH Hend') as (Ht & Hs & Hn).
      assert (Hne : String d s' <> EmptyString) by discriminate.
      specialize (Hn Hne). clear IH Hend Hend' Hne.
      generalize dependent (String d s'). intros r Ht Hs Hn.
      split; [|split].
      * intros b. rewrite sub_ws_cons.
        destruct (isspace c) eqn:Ec.
        -- destruct b; [apply Ht|]. simpl. split; [|apply Ht].
           intros _. split; [reflexivity|]. split; assumption.
        -- simpl. split; [congruence | apply Ht].
      * rewrite sub_ws_cons. destruct (isspace c) eqn:Ec; [exact Hs|exact Ec].
      * intros _. rewrite sub_ws_cons.
        destruct (isspace c); [exact Hn | discriminate].
Qed.

Lemma normalize_tidy (s : string) : tidy (normalize s).
Proof.
  unfold normalize, re_sub_ws.
  destruct (strip_edges s) as [Hs He].
  destruct (sub_ws_shape _ He) as (Ht & Hs' & _).
  split; [|apply Ht].
  rewrite <- (sub_ws_skip _ Hs). exact Hs'.
Qed.

Lemma tidy_tail_ends (s : string) : tidy_tail s -> ends_ws s = false.
Proof.
  induction s as [|c s IH]; simpl; [reflexivity|]. intros [Hc Ht].
  destruct s as [|d s']; [|apply IH, Ht].
  destruct (isspace c); [|reflexivity].
  destruct (Hc eq_refl) as (_ & Hne & _). congruence.
Qed.

Lemma tidy_tail_no_pair (s : string) : tidy_tail s -> has_ws_pair s = false.
Proof.
  induction s as [|c s IH]; simpl; [reflexivity|]. intros [Hc Ht].
  rewrite (IH Ht), orb_false_r.
  destruct (isspace c); [|reflexivity].
  destruct (Hc eq_refl) as (_ & _ & ->). reflexivity.
Qed.

Lemma tidy_is_normalized (s : string) : tidy s -> is_normalized s = true.
Proof.
  intros [Hs Ht]. unfold is_normalized.
  rewrite Hs, (tidy_tail_ends _ Ht), (tidy_tail_no_pair _ Ht). reflexivity.
Qed.

Lemma tidy_tail_sub_ws (s : string) : tidy_tail s -> sub_ws_from false s = s.
Proof.
  induction s as [|c s IH]; simpl; [reflexivity|]. intros [Hc Ht].
  destruct (isspace c).
  - destruct (Hc eq_refl) as (-> & _ & Hs).
    rewrite (sub_ws_skip _ Hs), (IH Ht). reflexivity.
  - rewrite (IH Ht). reflexivity.
Qed.

Lemma tidy_normalize_fix (s : string) : tidy s -> normalize s = s.
Proof.
  intros [Hs Ht]. unfold normalize, re_sub_ws.
  rewrite (strip_fix _ Hs (tidy_tail_ends _ Ht)). apply tidy_tail_sub_ws, Ht.
Qed.

Lemma normalize_is_normalized (s : string) : is_normalized (normalize s) = true.
Proof. apply tidy_is_normalized, normalize_tidy. Qed.

Example normalize_ex :
  normalize (String "009" "  Senior   ML" +:+ newline +:+ " Engineer  ")
  = "Senior ML Engineer".
Proof. reflexivity. Qed.

(** C9.  The text normalizer is idempotent: normalizing an already
    normalized string changes nothing. *)
Theorem normalize_idempotent (s : string) :
  normalize (normalize s) = normalize s.
Proof. apply tidy_normalize_fix, normalize_tidy. Qed.

(** ** Running scripts *)

Section ScriptFacts.
Context {B : Browser}.

Lemma bind_ok_inv {A C} (m : M A) (f : A -> M C) w w' t c :
  bind m f w = (w', t, Ok c) ->
  exists w1 t1 a t2,
    m w = (w1, t1, Ok a) /\ f a w1 = (w', t2, Ok c) /\ t = t1 ++ t2.
Proof.
  unfold bind. destruct (m w) as [[w1 t1] [a|]]; [|discriminate].
  destruct (f a w1) as [[w2 t2] r] eqn:Ef. intros [= -> <- ->].
  exists w1, t1, a, t2. auto.
Qed.

Lemma bind_ok {A C} (m : M A) (f : A -> M C) w w1 t1 a :
  m w = (w1, t1, Ok a) ->
  bind m f w = (let '(w2, t2, r) := f a w1 in (w2, t1 ++ t2, r)).
Proof. intros H. unfold bind. rewrite H. reflexivity. Qed.

Lemma bind_raise {A C} (m : M A) (f : A -> M C) w w1 t1 :
  m w = (w1, t1, Raise) -> bind m f w = (w1, t1, Raise).
Proof. intros H. unfold bind. rewrite H. reflexivity. Qed.

End ScriptFacts.

(** ** Link harvester *)

Lemma odict_set_length {V} (k : string) (v : V) (d : odict V) :
  length d <= length (odict_set k v d) <= S (length d).
Proof.
  induction d as [|[k' v'] d IH]; simpl; [lia|].
  destruct (String.eqb k' k); simpl; lia.
Qed.

Lemma existsb_eqb_In (k : string) (l : list string) :
  existsb (String.eqb k) l = true <-> In k l.
Proof.
  rewrite existsb_exists. split.
  - intros (x & Hx & He). apply String.eqb_eq in He. subst. exact Hx.
  - intros H. exists k. split; [exact H | apply String.eqb_refl].
Qed.

Lemma odict_keys_set {V} (k : string) (v : V) (d : odict V) :
  odict_keys (odict_set k v d)
  = if existsb (String.eqb k) (odict_keys d) then odict_keys d
    else odict_keys d ++ [k].
Proof.
  induction d as [|[k' v'] d IH]; simpl; [reflexivity|].
  rewrite (String.eqb_sym k k').
  destruct (String.eqb k' k) eqn:E; simpl.
  - apply String.eqb_eq in E. subst. reflexivity.
  - rewrite IH. destruct (existsb _ _); reflexivity.
Qed.

Lemma odict_keys_length {V} (d : odict V) : length (odict_keys d) = length d.
Proof. apply length_map. Qed.

Lemma first_seen_from_known (seen ks : list string) :
  (forall k, In k ks -> In k seen) -> first_seen_from seen ks = [].
Proof.
  induction ks as [|k ks IH]; intros H; simpl; [reflexivity|].
  assert (Hk : existsb (String.eqb k) seen = true).
  { apply existsb_eqb_In, H. left. reflexivity. }
  rewrite Hk. apply IH. intros k' Hk'. apply H. right. exact Hk'.
Qed.

Lemma first_seen_from_In (ks seen : list string) (k : string) :
  In k (seen ++ first_seen_from seen ks) <-> In k seen \/ In k ks.
Proof.
  revert seen. induction ks as [|k0 ks IH]; intros seen; simpl.
  - rewrite app_nil_r. tauto.
  - destruct (existsb (String.eqb k0) seen) eqn:E.
    + rewrite IH. apply existsb_eqb_In in E. split; [tauto|].
      intros [H|[H|H]]; subst; tauto.
    + change (k0 :: first_seen_from (seen ++ [k0]) ks)
        with ([k0] ++ first_seen_from (seen ++ [k0]) ks).
      rewrite app_assoc, IH, in_app_iff. simpl. tauto.
Qed.

Lemma first_seen_from_NoDup (ks seen : list string) :
  List.NoDup seen -> List.NoDup (seen ++ first_seen_from seen ks).
Proof.
  revert seen. induction ks as [|k0 ks IH]; intros seen Hnd; simpl.
  - rewrite app_nil_r. exact Hnd.
  - destruct (existsb (String.eqb k0) seen) eqn:E; [apply IH, Hnd|].
    change (k0 :: first_seen_from (seen ++ [k0]) ks)
      with ([k0] ++ first_seen_from (seen ++ [k0]) ks).
    rewrite app_assoc. apply IH.
    apply NoDup_ListNoDup, NoDup_app. repeat split.
    + apply NoDup_ListNoDup, Hnd.
    + intros x Hx Hx'. apply list_elem_of_In in Hx.
      apply list_elem_of_In in Hx'. destruct Hx' as [<-|[]].
      apply existsb_eqb_In in Hx. congruence.
    + apply NoDup_singleton.
Qed.

Lemma first_seen_NoDup (ks : list string) : List.NoDup (first_seen ks).
Proof. apply (first_seen_from_NoDup ks []). constructor. Qed.

Lemma first_seen_In (ks : list string) (k : string) :
  In k (first_seen ks) <-> In k ks.
Proof.
  unfold first_seen. rewrite <- (app_nil_l (first_seen_from [] ks)).
  rewrite first_seen_from_In. simpl. tauto.
Qed.

Section HarvesterFacts.
Context {B : Browser}.

Lemma scan_anchors_bound (max_links : Z) (anchors : list elem) :
  forall links w w' t links',
    (len links < max_links)%Z ->
    scan_anchors max_links anchors links w = (w', t, Ok links') ->
    (len links' <= max_links)%Z.
Proof.
  induction anchors as [|a rest IH]; intros links w w' t links' Hlt Hrun.
  - simpl in Hrun. injection Hrun as _ _ <-. lia.
  - simpl in Hrun. apply bind_ok_inv in Hrun.
    destruct Hrun as (w1 & t1 & href & t2 & _ & Hk & _).
    destruct (is_job_href href).
    + pose proof (odict_set_length (canonical (default "" href)) true links) as Hl.
      destruct (len (odict_set _ _ links) >=? max_links)%Z eqn:Hge.
      * injection Hk as _ _ <-. unfold len in *. lia.
      * eapply IH; [|exact Hk]. unfold len in *. lia.
    + eapply IH; eassumption.
Qed.

Lemma harvest_loop_bound (fuel : nat) (max_links : Z) :
  forall links last_height tries w w' t links',
    (len links <= Z.max 0 max_links)%Z ->
    harvest_loop fuel max_links links last_height tries w
    = (w', t, Ok (Some links')) ->
    (len links' <= Z.max 0 max_links)%Z.
Proof.
  induction fuel as [|fuel IH];
    intros links last_height tries w w' t links' Hle Hrun; simpl in Hrun;
    destruct (len links <? max_links)%Z eqn:Hlt; simpl in Hrun;
    try (injection Hrun as _ _ <-; exact Hle).
  - destruct (tries <? max_tries)%Z; simpl in Hrun;
      [discriminate | injection Hrun as _ _ <-; exact Hle].
  - destruct (tries <? max_tries)%Z; simpl in Hrun;
      [| injection Hrun as _ _ <-; exact Hle].
    apply bind_ok_inv in Hrun.
    destruct Hrun as (w1 & t1 & anchors & t2 & _ & Hrun & _).
    apply bind_ok_inv in Hrun.
    destruct Hrun as (w2 & t3 & links1 & t4 & Hscan & Hrun & _).
    apply bind_ok_inv in Hrun. destruct Hrun as (w3 & ? & ? & ? & _ & Hrun & _).
    apply bind_ok_inv in Hrun. destruct Hrun as (w4 & ? & ? & ? & _ & Hrun & _).
    apply bind_ok_inv in Hrun.
    destruct Hrun as (w5 & ? & new_height & ? & _ & Hrun & _).
    assert (Hb : (len links1 <= Z.max 0 max_links)%Z).
    { apply Z.ltb_lt in Hlt.
      pose proof (scan_anchors_bound _ _ _ _ _ _ _ Hlt Hscan). lia. }
    destruct (new_height =? last_height)%Z; eapply IH; eassumption.
Qed.

Lemma scroll_requests_app (t1 t2 : list event) :
  scroll_requests (t1 ++ t2) = scroll_requests t1 + scroll_requests t2.
Proof. unfold scroll_requests. rewrite List.filter_app, length_app. reflexivity. Qed.

Lemma scan_anchors_all (max_links : Z) (w : world) anchors hrefs :
  Forall2 (fun a h => get_attribute a "href" w = Ok h) anchors hrefs ->
  forall links,
    let ks := map (fun h => canonical (default "" h))
                  (List.filter is_job_href hrefs) in
    let keys := odict_keys links ++ first_seen_from (odict_keys links) ks in
    (len keys < max_links)%Z ->
    exists t links',
      scan_anchors max_links anchors links w = (w, t, Ok links')
      /\ odict_keys links' = keys /\ scroll_requests t = 0.
Proof.
  induction 1 as [|a h anchors hrefs Ha _ IH]; intros links ks keys Hlt.
  - exists [], links. subst keys ks. simpl. rewrite app_nil_r. auto.
  - simpl scan_anchors. unfold bind at 1, attribute, query. rewrite Ha.
    subst ks. simpl List.filter in *.
    destruct (is_job_href h) eqn:Hjob.
    + simpl map in *. set (k := canonical (default "" h)) in *.
      set (ks := map _ (List.filter is_job_href hrefs)) in *.
      assert (Hkeys : odict_keys (odict_set k true links)
                      ++ first_seen_from (odict_keys (odict_set k true links)) ks
                      = keys).
      { subst keys. rewrite odict_keys_set. simpl.
        destruct (existsb (String.eqb k) (odict_keys links)); [reflexivity|].
        rewrite <- app_assoc. reflexivity. }
      assert (Hlen : (len (odict_set k true links) < max_links)%Z).
      { unfold len in *. rewrite <- Hkeys in Hlt.
        rewrite length_app, odict_keys_length in Hlt. lia. }
      replace (len (odict_set k true links) >=? max_links)%Z with false
        by (symmetry; rewrite Z.geb_leb; apply Z.leb_gt; exact Hlen).
      destruct (IH (odict_set k true links)) as (t & links' & Hrun & Hk & Ht).
      { fold ks. rewrite Hkeys. exact Hlt. }
      rewrite Hrun. exists (EGetAttribute a "href" :: t), links'.
      repeat split; [| exact Ht]. fold ks in Hk. rewrite Hk. exact Hkeys.
    + destruct (IH links Hlt) as (t & links' & Hrun & Hk & Ht).
      rewrite Hrun. exists (EGetAttribute a "href" :: t), links'.
      repeat split; assumption.
Qed.

Lemma harvest_loop_unfold (fuel : nat) max_links links last_height tries :
  harvest_loop fuel max_links links last_height tries
  = if negb ((len links <? max_links)%Z && (tries <? max_tries)%Z)
    then ret (Some links)
    else
      match fuel with
      | O => ret None
      | S fuel' =>
          anchors <- find_all anchors_locator ;;
          links' <- scan_anchors max_links anchors links ;;
          script js_scroll_by ;;;
          sleep ;;;
          new_height <- script js_scroll_height ;;
          if (new_height =? last_height)%Z
          then harvest_loop fuel' max_links links' last_height (tries + 1)%Z
          else harvest_loop fuel' max_links links' new_height 0%Z
      end.
Proof. destruct fuel; reflexivity. Qed.

End HarvesterFacts.

Lemma harvest_bound_any {B : Browser} (fuel : nat) (max_links : Z)
    (w w' : world) (t : list event) (ls : list string) :
  scroll_container_collect_links fuel max_links w = (w', t, Ok (Some ls)) ->
  (len ls <= Z.max 0 max_links)%Z.
Proof.
  unfold scroll_container_collect_links. intros Hrun.
  apply bind_ok_inv in Hrun. destruct Hrun as (w1 & ? & h & ? & _ & Hrun & _).
  apply bind_ok_inv in Hrun. destruct Hrun as (w2 & ? & r & ? & Hloop & Hret & _).
  injection Hret as _ _ Hr. destruct r as [links|]; [|discriminate].
  injection Hr as <-.
  assert (H0 : (len (@nil (string * bool)) <= Z.max 0 max_links)%Z)
    by (unfold len; simpl; lia).
  pose proof (harvest_loop_bound _ _ _ _ _ _ _ _ _ H0 Hloop) as Hb.
  unfold len in *. rewrite odict_keys_length. exact Hb.
Qed.

Lemma first_seen_from_app (a b seen : list string) :
  first_seen_from seen (a ++ b)
  = first_seen_from seen a
    ++ first_seen_from (seen ++ first_seen_from seen a) b.
Proof.
  revert seen. induction a as [|k a IH]; intros seen; simpl.
  - rewrite app_nil_r. reflexivity.
  - destruct (existsb (String.eqb k) seen); [apply IH|].
    rewrite IH. simpl. rewrite <- app_assoc. reflexivity.
Qed.

Lemma links_seen_succ (ks : nat -> list string) (n : nat) :
  links_seen ks (S n)
  = links_seen ks n ++ first_seen_from (links_seen ks n) (ks n).
Proof.
  unfold links_seen, first_seen.
  rewrite seq_S, map_app, concat_app. simpl. rewrite app_nil_r.
  apply first_seen_from_app.
Qed.

Lemma links_seen_length (ks : nat -> list string) (n m : nat) :
  n <= m -> length (links_seen ks n) <= length (links_seen ks m).
Proof.
  induction 1 as [|m _ IH]; [lia|].
  rewrite links_seen_succ, length_app. lia.
Qed.

Lemma links_seen_In (ks : nat -> list string) (N : nat) (k : string) :
  In k (links_seen ks N) <-> exists n, n < N /\ In k (ks n).
Proof.
  unfold links_seen. rewrite first_seen_In, in_concat. split.
  - intros (l & Hl & Hk). apply in_map_iff in Hl. destruct Hl as (n & <- & Hn).
    apply in_seq in Hn. exists n. split; [lia | exact Hk].
  - intros (n & Hn & Hk). exists (ks n). split; [|exact Hk].
    apply in_map, in_seq. lia.
Qed.

Section Streak.
Variables (h0 : Z) (hs : nat -> Z).

Lemma streak_le (n : nat) : streak h0 hs n <= n.
Proof.
  induction n as [|n IH]; simpl; [lia|].
  destruct (hs n =? extent_before h0 hs n)%Z; lia.
Qed.

Lemma streak_no_growth (n m : nat) :
  n - streak h0 hs n <= m < n -> hs m = extent_before h0 hs m.
Proof.
  induction n as [|n IH]; simpl; [lia|].
  destruct (hs n =? extent_before h0 hs n)%Z eqn:E; [|lia].
  intros Hm. destruct (Nat.eq_dec m n) as [->|Hne].
  - apply Z.eqb_eq, E.
  - apply IH. lia.
Qed.

Lemma streak_settles (K : nat) :
  settles_after h0 hs K ->
  (forall n, n < K + 20 -> streak h0 hs n < 20)
  /\ streak h0 hs (K + 20) = 20.
Proof.
  intros [Hgrow Hstill].
  assert (Hbefore : forall n, n <= K -> streak h0 hs n < 20).
  { intros n Hn. destruct (Nat.lt_ge_cases (streak h0 hs n) 20) as [|Hge];
      [assumption|].
    pose proof (streak_le n) as Hle.
    destruct (Hgrow (n - 20)) as (m & Hm & HmK & Hg); [lia|].
    exfalso. apply Hg, (streak_no_growth n). lia. }
  assert (HK : streak h0 hs K = 0).
  { destruct K as [|k]; [reflexivity|]. simpl.
    destruct (Hgrow k) as (m & Hm & HmK & Hg); [lia|].
    assert (m = k) by lia. subst m.
    destruct (hs k =? extent_before h0 hs k)%Z eqn:E; [|reflexivity].
    apply Z.eqb_eq in E. contradiction. }
  assert (Hafter : forall j, j <= 20 -> streak h0 hs (K + j) = j).
  { induction j as [|j IH]; intros Hj.
    - rewrite Nat.add_0_r. exact HK.
    - rewrite Nat.add_succ_r. simpl.
      rewrite (Hstill (K + j)) by lia. rewrite Z.eqb_refl, IH by lia.
      reflexivity. }
  split; [|apply Hafter; lia].
  intros n Hn. destruct (Nat.le_gt_cases n K) as [Hle|Hgt];
    [apply Hbefore, Hle|].
  replace n with (K + (n - K)) by lia. rewrite Hafter; lia.
Qed.

End Streak.

(** The loop, followed round by round on a page whose rounds are known:
    when round [n] starts, the keys held are the links of the rounds
    before, [last_height] is the extent measured last, and [tries] is the
    number of rounds without growth that lie behind. *)
Lemma harvest_loop_rounds {B : Browser} (max_links h0 : Z)
    (ks : nat -> list string) (hs : nat -> Z) (w : world) (N : nat) :
  observed w ks hs N ->
  (forall n, n < N -> streak h0 hs n < 20) ->
  streak h0 hs N = 20 ->
  (len (links_seen ks N) < max_links)%Z ->
  forall (d n fuel : nat) (links : odict bool),
    n + d = N -> d <= fuel ->
    odict_keys links = links_seen ks n ->
    exists w' t links',
      harvest_loop fuel max_links links (extent_before h0 hs n)
        (Z.of_nat (streak h0 hs n)) (page_after w n)
      = (w', t, Ok (Some links'))
      /\ odict_keys links' = links_seen ks N /\ scroll_requests t = d.
Proof.
  intros Hobs Hlow Hend HL.
  induction d as [|d IH]; intros n fuel links Hn Hfuel Hkeys.
  - rewrite Nat.add_0_r in Hn. subst n. rewrite harvest_loop_unfold, Hend.
    replace (Z.of_nat 20 <? max_tries)%Z with false by reflexivity.
    rewrite andb_false_r. simpl. exists (page_after w N), [], links.
    repeat split. exact Hkeys.
  - destruct fuel as [|fuel]; [lia|].
    rewrite harvest_loop_unfold.
    destruct (Hobs n ltac:(lia))
      as ((anchors & hrefs & Hfind & Hattr & Hks) & (v & Hv) & Hh).
    assert (Hnext : (len (links_seen ks (S n)) < max_links)%Z).
    { pose proof (links_seen_length ks (S n) N ltac:(lia)).
      unfold len in *. lia. }
    assert (Hlen : (len links < max_links)%Z).
    { pose proof (links_seen_length ks n (S n) ltac:(lia)).
      unfold len in *. rewrite <- odict_keys_length, Hkeys. lia. }
    replace (len links <? max_links)%Z with true
      by (symmetry; apply Z.ltb_lt; exact Hlen).
    replace (Z.of_nat (streak h0 hs n) <? max_tries)%Z with true
      by (symmetry; apply Z.ltb_lt; unfold max_tries;
          specialize (Hlow n ltac:(lia)); lia).
    change (negb (true && true)) with false. cbv iota.
    destruct (scan_anchors_all max_links (page_after w n) anchors hrefs Hattr links)
      as (t1 & links1 & Hscan & Hk1 & Ht1).
    { rewrite <- Hks, Hkeys, <- links_seen_succ. exact Hnext. }
    rewrite <- Hks, Hkeys, <- links_seen_succ in Hk1.
    destruct (IH (S n) fuel links1) as (w' & t & links' & Hrun & Hk & Ht);
      [lia | lia | exact Hk1 |].
    unfold page_after in Hrun. rewrite Nat.iter_succ in Hrun.
    fold (page_after w n) in Hrun. unfold scroll_round in Hrun.
    destruct (execute_script js_scroll_by (page_after w n)) as [w1 r1] eqn:E1.
    simpl in Hv, Hh, Hrun. subst r1.
    destruct (execute_script js_scroll_height (time_sleep w1)) as [w2 r2] eqn:E2.
    simpl in Hh, Hrun. subst r2.
    erewrite bind_ok by (unfold find_all, query; rewrite Hfind; reflexivity).
    erewrite bind_ok by exact Hscan.
    erewrite bind_ok by (unfold script, action; rewrite E1; reflexivity).
    erewrite bind_ok by reflexivity.
    erewrite bind_ok by (unfold script, action; rewrite E2; reflexivity).
    simpl streak in Hrun. simpl extent_before in Hrun.
    destruct (hs n =? extent_before h0 hs n)%Z eqn:E.
    + apply Z.eqb_eq in E. rewrite <- E.
      rewrite Nat2Z.inj_succ in Hrun.
      unfold Z.succ in Hrun. rewrite Hrun.
      eexists _, _, links'. split; [reflexivity|]. split; [exact Hk|].
      rewrite !scroll_requests_app, Ht1, Ht. reflexivity.
    + change (Z.of_nat 0) with 0%Z in Hrun. rewrite Hrun.
      eexists _, _, links'. split; [reflexivity|]. split; [exact Hk|].
      rewrite !scroll_requests_app, Ht1, Ht. reflexivity.
Qed.

(** C4 (amended).  Link harvester.  On a results page that, under the
    harvester's scrolling, grows up to some round [K] (never, when
    [K = 0]) and then measures the same extent for twenty rounds, and that
    has shown fewer than [max_links] different job links by then,
    harvesting ends with those twenty rounds, the stagnation bound, after
    [K + 20] scroll requests in all, and returns the links shown, each
    once, in the order they were first seen.  On every page what is
    returned holds at most [max_links] links when [max_links] is not
    negative, and is empty when it is. *)
Theorem harvest_stagnation_and_bound {B : Browser} (max_links : Z) (w0 : world) :
  (forall (h0 : Z) (w1 : world) (ks : nat -> list string) (hs : nat -> Z)
          (K : nat),
      execute_script js_scroll_height w0 = (w1, Ok h0) ->
      observed w1 ks hs (K + 20) ->
      settles_after h0 hs K ->
      (len (links_seen ks (K + 20)) < max_links)%Z ->
      forall fuel, K + 20 <= fuel ->
        exists w' t,
          scroll_container_collect_links fuel max_links w0
          = (w', t, Ok (Some (links_seen ks (K + 20))))
          /\ scroll_requests t = K + 20
          /\ List.NoDup (links_seen ks (K + 20))
          /\ (forall k, In k (links_seen ks (K + 20))
                        <-> exists n, n < K + 20 /\ In k (ks n)))
  /\ (forall fuel w' t ls,
        scroll_container_collect_links fuel max_links w0 = (w', t, Ok (Some ls)) ->
        ((0 <= max_links)%Z -> (len ls <= max_links)%Z)
        /\ ((max_links < 0)%Z -> ls = [])).
Proof.
  split.
  - intros h0 w1 ks hs K Hh Hobs Hset Hlt fuel Hfuel.
    destruct (streak_settles h0 hs K Hset) as [Hlow Hend].
    destruct (harvest_loop_rounds max_links h0 ks hs w1 (K + 20) Hobs Hlow Hend
                Hlt (K + 20) 0 fuel [])
      as (w' & t & links' & Hrun & Hk & Ht); [lia | exact Hfuel | reflexivity |].
    simpl in Hrun. exists w', (EScript js_scroll_height :: t ++ []).
    split; [|split; [|split]].
    + unfold scroll_container_collect_links.
      erewrite bind_ok by (unfold script, action; rewrite Hh; reflexivity).
      erewrite bind_ok by exact Hrun.
      simpl. rewrite Hk. reflexivity.
    + rewrite app_nil_r.
      change (EScript js_scroll_height :: t) with ([EScript js_scroll_height] ++ t).
      rewrite scroll_requests_app, Ht. reflexivity.
    + apply first_seen_NoDup.
    + apply links_seen_In.
  - intros fuel w' t ls Hrun. pose proof (harvest_bound_any _ _ _ _ _ _ Hrun) as Hb.
    split; intros Hm.
    + lia.
    + destruct ls as [|x ls]; [reflexivity|]. unfold len in Hb. simpl in Hb. lia.
Qed.

Lemma growing_site_rounds (n : nat) :
  @page_after (sim growing_site) 0 n = n.
Proof.
  unfold page_after. induction n as [|n IH]; [reflexivity|].
  rewrite Nat.iter_succ, IH. reflexivity.
Qed.

Lemma growing_site_frame (n : nat) :
  frame_at growing_site (S n) = frame_at growing_site 1.
Proof. destruct n as [|[|n]]; reflexivity. Qed.

Lemma growing_site_observed (N : nat) :
  @observed (sim growing_site) 0 growing_links growing_extents N.
Proof.
  intros n _. rewrite growing_site_rounds. split; [|split].
  - destruct n as [|n].
    + exists [0; 1],
        [ Some "https://www.linkedin.com/jobs/view/101?refId=a";
          Some "https://www.linkedin.com/jobs/view/202" ].
      split; [reflexivity|]. split; [|reflexivity].
      repeat constructor.
    + exists [0; 1; 2; 3],
        [ Some "https://www.linkedin.com/jobs/view/101?refId=a";
          Some "https://www.linkedin.com/jobs/view/202";
          Some "https://www.linkedin.com/jobs/view/303";
          Some "https://www.linkedin.com/jobs/view/404?refId=c" ].
      split; [|split; [|reflexivity]].
      * simpl. unfold sim_find_all. rewrite growing_site_frame. reflexivity.
      * repeat constructor; simpl; unfold node_at;
          rewrite growing_site_frame; reflexivity.
  - exists 0%Z. reflexivity.
  - simpl. unfold sim_script. simpl. rewrite growing_site_frame. reflexivity.
Qed.

Lemma growing_site_settles : settles_after 900 growing_extents 1.
Proof.
  split.
  - intros n Hn. exists 0. repeat split; try lia. discriminate.
  - intros n Hn. destruct n as [|n]; [lia | reflexivity].
Qed.

Lemma growing_site_links :
  links_seen growing_links 21
  = [ "https://www.linkedin.com/jobs/view/101";
      "https://www.linkedin.com/jobs/view/202";
      "https://www.linkedin.com/jobs/view/303";
      "https://www.linkedin.com/jobs/view/404" ].
Proof. vm_compute. reflexivity. Qed.

Lemma growing_site_few : (len (links_seen growing_links (1 + 20)) < 10)%Z.
Proof. vm_compute. reflexivity. Qed.

Lemma harvest_stagnation_and_bound_witness :
  exists w' t,
    @scroll_container_collect_links (sim growing_site) 25 10 0
    = (w', t,
       Ok (Some [ "https://www.linkedin.com/jobs/view/101";
                  "https://www.linkedin.com/jobs/view/202";
                  "https://www.linkedin.com/jobs/view/303";
                  "https://www.linkedin.com/jobs/view/404" ]))
    /\ scroll_requests t = 21.
Proof.
  destruct (@harvest_stagnation_and_bound (sim growing_site) 10%Z 0) as [Ha _].
  destruct (Ha 900%Z 0 growing_links growing_extents 1 eq_refl
              (growing_site_observed 21) growing_site_settles
              growing_site_few 25 ltac:(lia))
    as (w' & t & Hrun & Ht & _).
  exists w', t. split; [|exact Ht].
  rewrite <- growing_site_links. exact Hrun.
Defined.

(** C4, as stated, fails for a negative [max_links]: the harvester
    returns the empty collection, which does not hold at most -1 links. *)
Lemma harvest_negative_max_links :
  exists w' t ls,
    @scroll_container_collect_links (sim results_site) 25 (-1) 0
    = (w', t, Ok (Some ls))
    /\ ~ (len ls <= -1)%Z.
Proof.
  exists 0, [EScript js_scroll_height], []. split; [reflexivity|].
  unfold len. simpl. lia.
Qed.

Lemma results_site_frame (n : nat) :
  frame_at results_site n = frame_at results_site 0.
Proof. destruct n as [|[|n]]; reflexivity. Qed.

Lemma results_site_links (n : nat) :
  @page_job_links (sim results_site) n results_links.
Proof.
  exists [0; 1; 2],
    [ Some "https://www.linkedin.com/jobs/view/101?refId=a";
      Some "https://www.linkedin.com/jobs/view/202";
      Some "https://www.linkedin.com/jobs/view/101?refId=b" ].
  split; [|split; [|reflexivity]].
  - simpl. unfold sim_find_all. rewrite results_site_frame. reflexivity.
  - repeat constructor; simpl; unfold node_at;
      rewrite results_site_frame; reflexivity.
Qed.

(** ** Detail extractor *)

Lemma strip_strip (s : string) : strip (strip s) = strip s.
Proof. destruct (strip_edges s) as [H1 H2]. apply strip_fix; assumption. Qed.

Lemma normalize_strip (s : string) : normalize (strip s) = normalize s.
Proof. unfold normalize. rewrite strip_strip. reflexivity. Qed.

Lemma normalize_empty : normalize "" = "".
Proof. reflexivity. Qed.

Section ExtractorFacts.
Context {B : Browser}.

Lemma stripped_text_run (l : locator) (w : world) :
  exists t, stripped_text l w = (w, t, text_at l w).
Proof.
  unfold stripped_text, text_at, bind, find1, text_of, query, ret.
  destruct (find_element l w) as [el|]; [|eexists; reflexivity].
  destruct (el_text el w); eexists; reflexivity.
Qed.

Lemma field_run (l : locator) (w : world) :
  exists t, try_except (stripped_text l) (ret "") w = (w, t, Ok (or_empty (text_at l w))).
Proof.
  destruct (stripped_text_run l w) as (t & Ht). unfold try_except. rewrite Ht.
  destruct (text_at l w); eexists; reflexivity.
Qed.

Lemma company_run (w : world) :
  exists t,
    try_except (stripped_text company_locator)
      (try_except (stripped_text flavor_locator) (ret "")) w
    = (w, t, Ok (match text_at company_locator w with
                 | Ok s => s
                 | Raise => or_empty (text_at flavor_locator w)
                 end)).
Proof.
  destruct (stripped_text_run company_locator w) as (t & Ht).
  unfold try_except at 1. rewrite Ht.
  destruct (text_at company_locator w); [eexists; reflexivity|].
  destruct (field_run flavor_locator w) as (t' & ->). eexists; reflexivity.
Qed.

Lemma scan_nodes_run (w : world) (nodes : list elem) :
  forall texts,
    exists t q completed,
      scan_nodes nodes texts w = (w, t, Ok (texts ++ q, completed))
      /\ (exists q', qualifying w nodes = q ++ q')
      /\ ((forall n, In n nodes -> el_text n w <> Raise) ->
          completed = true /\ q = qualifying w nodes).
Proof.
  induction nodes as [|n rest IH]; intros texts.
  - exists [], [], true. simpl. rewrite app_nil_r.
    split; [reflexivity|]. split; [exists []; reflexivity | auto].
  - simpl. unfold bind at 1, attempt, text_of, query.
    destruct (el_text n w) as [t0|] eqn:Et.
    + destruct (50 <? String.length (strip t0)) eqn:Elen.
      * destruct (IH (texts ++ [strip t0])) as (t & q & c & Hrun & [q' Hq] & Hall).
        rewrite Hrun. exists ([EText n] ++ t), (strip t0 :: q), c.
        split; [rewrite <- app_assoc; reflexivity|].
        split; [exists q'; rewrite Hq; reflexivity|].
        intros Hok. destruct Hall as [-> ->]; [intros; apply Hok; right; assumption|].
        auto.
      * destruct (IH texts) as (t & q & c & Hrun & Hq & Hall).
        rewrite Hrun. exists ([EText n] ++ t), q, c.
        split; [reflexivity|]. split; [exact Hq|].
        intros Hok. apply Hall. intros; apply Hok; right; assumption.
    + exists [EText n], [], false. rewrite app_nil_r.
      split; [reflexivity|]. split; [eexists; reflexivity|].
      intros Hok. exfalso. apply (Hok n); [left; reflexivity | exact Et].
Qed.

Lemma try_selectors_run (w : world) (sels : list string) :
  forall texts,
    exists t texts',
      try_selectors sels texts w = (w, t, Ok texts')
      /\ ((forall sel, In sel sels -> strategy_texts w sel = []) -> texts' = texts)
      /\ (texts = [] ->
          (forall sel n, In sel sels -> In n (strategy_nodes w sel) ->
                         el_text n w <> Raise) ->
          texts' = first_qualifying w sels).
Proof.
  induction sels as [|sel rest IH]; intros texts.
  - exists [], texts. simpl. repeat split; auto.
  - simpl try_selectors. unfold bind at 1, attempt, find_all, query.
    simpl first_qualifying. unfold strategy_texts at 2, strategy_nodes at 2.
    assert (Hrest : forall P : string -> Prop,
               (forall s, In s (sel :: rest) -> P s) -> forall s, In s rest -> P s)
      by (intros P H s Hs; apply H; right; exact Hs).
    destruct (find_elements (XPATH, sel) w) as [nodes|] eqn:Ef.
    + destruct (scan_nodes_run w nodes texts) as (t1 & q & c & Hrun & [q' Hq] & Hall).
      unfold bind. rewrite Hrun.
      destruct (IH (texts ++ q)) as (t2 & texts2 & Hrun2 & Hkeep & Hfirst).
      assert (Hsel : strategy_texts w sel = qualifying w nodes)
        by (unfold strategy_texts, strategy_nodes; rewrite Ef; reflexivity).
      destruct c.
      * destruct (texts ++ q) as [|x tq] eqn:Etq.
        -- rewrite Hrun2. eexists _, texts2. split; [reflexivity|]. split.
           ++ intros Hnone. rewrite Hkeep by (apply (Hrest _ Hnone)).
              destruct texts; [reflexivity | discriminate].
           ++ intros -> Hok. simpl in Etq. subst q.
              destruct Hall as [_ Hq2].
              { intros n Hn. apply (Hok sel); [left; reflexivity|].
                unfold strategy_nodes. rewrite Ef. exact Hn. }
              rewrite <- Hq2. apply Hfirst; [reflexivity|].
              intros s n Hs. apply Hok. right. exact Hs.
        -- eexists _, (x :: tq). split; [reflexivity|]. split.
           ++ intros Hnone. specialize (Hnone sel (or_introl eq_refl)).
              rewrite Hsel, Hq in Hnone. apply app_eq_nil in Hnone.
              destruct Hnone as [-> _]. rewrite app_nil_r in Etq. auto.
           ++ intros -> Hok. simpl in Etq. subst q.
              destruct Hall as [_ Hq2].
              { intros n Hn. apply (Hok sel); [left; reflexivity|].
                unfold strategy_nodes. rewrite Ef. exact Hn. }
              rewrite <- Hq2. reflexivity.
      * assert (Hgo : (let (texts', b) := (texts ++ q, false) in
                        match texts' with
                        | [] => try_selectors rest texts'
                        | _ :: _ =>
                            if b then ret texts' else try_selectors rest texts'
                        end) = try_selectors rest (texts ++ q))
          by (simpl; destruct (texts ++ q); reflexivity).
        rewrite Hgo, Hrun2. eexists _, texts2. split; [reflexivity|]. split.
        -- intros Hnone. rewrite Hkeep by (apply (Hrest _ Hnone)).
           specialize (Hnone sel (or_introl eq_refl)).
           rewrite Hsel, Hq in Hnone. apply app_eq_nil in Hnone.
           destruct Hnone as [-> _]. apply app_nil_r.
        -- intros -> Hok. destruct Hall as [Hc _]; [|discriminate].
           intros n Hn. apply (Hok sel); [left; reflexivity|].
           unfold strategy_nodes. rewrite Ef. exact Hn.
    + destruct (IH texts) as (t2 & texts2 & Hrun2 & Hkeep & Hfirst).
      unfold bind. rewrite Hrun2. eexists _, texts2. split; [reflexivity|].
      split.
      * intros Hnone. apply Hkeep. apply (Hrest _ Hnone).
      * intros -> Hok. simpl. apply Hfirst; [reflexivity|].
        intros s n Hs. apply Hok. right. exact Hs.
Qed.

Lemma job_details_fallback_run (w : world) (texts : list string) :
  exists t,
    job_details_fallback texts w
    = (w, t, Ok (or_fallback w texts)).
Proof.
  destruct texts as [|x texts]; [|eexists; reflexivity].
  unfold job_details_fallback, or_fallback, fallback_texts, try_except, bind,
    find1, text_of, query, ret.
  destruct (find_element job_details_locator w) as [big|]; [|eexists; reflexivity].
  destruct (el_text big w); eexists; reflexivity.
Qed.

End ExtractorFacts.

Section ExtractorTheorems.
Context {B : Browser}.

Lemma body_wait_run (timeout : Z) (w : world) :
  exists t,
    try_except
      (wait timeout (presence_of_element_located (TAG_NAME, "body")) ;;; ret tt)
      (ret tt) w
    = (fst (wait_until timeout (presence_of_element_located (TAG_NAME, "body")) w),
       t, Ok tt).
Proof.
  unfold try_except, bind, wait, action, ret.
  destruct (wait_until timeout _ w) as [w1 [e|]]; eexists; reflexivity.
Qed.

(** What a call computes once navigation has succeeded: the record, and
    the two facts about the texts the strategies gathered. *)
Lemma fetch_run (job_url : string) (timeout : Z) (w : world) :
  snd (driver_get job_url w) = Ok tt ->
  let p := loaded job_url timeout w in
  exists t texts,
    fetch_job_description job_url timeout w
    = (p, t,
       Ok (job_dict job_url
             (normalize (or_empty (text_at title_locator p)))
             (normalize (match text_at company_locator p with
                         | Ok s => s
                         | Raise => or_empty (text_at flavor_locator p)
                         end))
             (normalize (join_lines (or_fallback p texts)))))
    /\ ((forall sel, In sel desc_selectors -> strategy_texts p sel = []) ->
        texts = [])
    /\ (texts_readable p -> texts = first_qualifying p desc_selectors).
Proof.
  intros Hget p. unfold loaded in p.
  destruct (driver_get job_url w) as [w1 r1] eqn:Eget. simpl in Hget, p. subst r1.
  destruct (body_wait_run timeout w1) as (t2 & Hwait).
  destruct (field_run title_locator p) as (t3 & Htitle).
  destruct (company_run p) as (t4 & Hcompany).
  destruct (try_selectors_run p desc_selectors []) as (t5 & texts & Hsel & Hnone & Hfirst).
  destruct (job_details_fallback_run p texts) as (t6 & Hfb).
  exists ([EGet job_url] ++ t2 ++ [ESleep] ++ t3 ++ t4 ++ t5 ++ t6 ++ []), texts.
  split; [|split; [exact Hnone | intros Hr; apply Hfirst; [reflexivity | exact Hr]]].
  unfold fetch_job_description.
  erewrite bind_ok by (unfold get, action; rewrite Eget; reflexivity).
  erewrite bind_ok by exact Hwait.
  erewrite bind_ok by reflexivity.
  erewrite bind_ok by exact Htitle.
  erewrite bind_ok by exact Hcompany.
  erewrite bind_ok by exact Hsel.
  erewrite bind_ok by exact Hfb.
  unfold ret, job_dict. rewrite normalize_strip. reflexivity.
Qed.

End ExtractorTheorems.

(** C2 (amended).  Once navigation to the job URL has succeeded, the
    extractor returns a record on every page and does not raise; title,
    company and description are normalized, and each is empty when its
    locators find nothing.  When the navigation call itself raises, the
    extractor raises, having made that call and nothing else. *)
Theorem extract_total_after_navigation {B : Browser}
    (job_url : string) (timeout : Z) (w : world) :
  (snd (driver_get job_url w) = Ok tt ->
   let p := loaded job_url timeout w in
   exists t title company description,
     fetch_job_description job_url timeout w
     = (p, t, Ok (job_dict job_url title company description))
     /\ is_normalized title = true
     /\ is_normalized company = true
     /\ is_normalized description = true
     /\ (find_element title_locator p = Raise -> title = "")
     /\ (find_element company_locator p = Raise ->
         find_element flavor_locator p = Raise -> company = "")
     /\ ((forall sel, In sel desc_selectors -> strategy_nodes p sel = []) ->
         find_element job_details_locator p = Raise -> description = ""))
  /\ (snd (driver_get job_url w) = Raise ->
      fetch_job_description job_url timeout w
      = (fst (driver_get job_url w), [EGet job_url], Raise)).
Proof.
  split.
  - intros Hget p.
    destruct (fetch_run job_url timeout w Hget) as (t & texts & Hrun & Hnone & _).
    fold p in Hrun, Hnone. eexists t, _, _, _. split; [exact Hrun|].
    repeat split; try apply normalize_is_normalized.
    + intros Hf. unfold text_at. rewrite Hf. reflexivity.
    + intros Hc Hf. unfold text_at. rewrite Hc, Hf. reflexivity.
    + intros Hs Hd. rewrite Hnone.
      * unfold or_fallback, fallback_texts. rewrite Hd. reflexivity.
      * intros sel Hsel. unfold strategy_texts. rewrite (Hs sel Hsel). reflexivity.
  - intros Hget. unfold fetch_job_description, bind, get, action.
    destruct (driver_get job_url w) as [w1 r1]. simpl in Hget. subst r1.
    reflexivity.
Qed.

Example fetch_job_site :
  snd (@fetch_job_description (sim job_site) job_url_101 6 0)
  = Ok (job_dict job_url_101 "Senior ML Engineer" "Acme Corp" long_text).
Proof. vm_compute. reflexivity. Qed.

Lemma extract_total_after_navigation_witness :
  (exists t title company description,
     @fetch_job_description (sim job_site) job_url_101 6 0
     = (0, t, Ok (job_dict job_url_101 title company description))
     /\ is_normalized title = true
     /\ is_normalized company = true
     /\ is_normalized description = true)
  /\ @fetch_job_description (sim job_site) "about:blank" 6 0
     = (0, [EGet "about:blank"], Raise).
Proof.
  split.
  - destruct (proj1 (@extract_total_after_navigation (sim job_site) job_url_101
                       6%Z 0) eq_refl)
      as (t & ti & co & de & Hrun & Ht & Hc & Hd & _).
    exists t, ti, co, de. repeat split; assumption.
  - exact (proj2 (@extract_total_after_navigation (sim job_site) "about:blank"
                    6%Z 0) eq_refl).
Defined.

(** C2, as stated, fails: the navigation call sits outside every [try],
    so a URL the driver refuses makes the extractor raise. *)
Lemma extract_raises_when_navigation_fails :
  exists w' t,
    @fetch_job_description (sim job_site) "linkedin.com/jobs/view/101" 6 0
    = (w', t, Raise).
Proof. exists 0, [EGet "linkedin.com/jobs/view/101"]. reflexivity. Qed.

(** C7 (amended).  Provided the elements the strategies find give their
    text, the description is the normalized newline-join of the stripped
    texts longer than 50 characters of the first strategy, in the order of
    [desc_selectors], that has such a text; later strategies add nothing.
    When no strategy has one, it is the normalized text of the job-details
    container if that is present, and empty otherwise. *)
Theorem description_first_qualifying {B : Browser}
    (job_url : string) (timeout : Z) (w : world) :
  snd (driver_get job_url w) = Ok tt ->
  texts_readable (loaded job_url timeout w) ->
  exists w' t rec,
    fetch_job_description job_url timeout w = (w', t, Ok rec)
    /\ rec !! "description"
       = Some (VStr (description_of (loaded job_url timeout w))).
Proof.
  intros Hget Hread.
  destruct (fetch_run job_url timeout w Hget) as (t & texts & Hrun & _ & Hfirst).
  eexists _, t, _. split; [exact Hrun|].
  rewrite (Hfirst Hread). unfold job_dict, description_of.
  rewrite lookup_insert_ne by discriminate.
  rewrite lookup_insert_ne by discriminate.
  rewrite lookup_insert_ne by discriminate.
  apply lookup_insert_eq.
Qed.

Lemma job_site_readable : @texts_readable (sim job_site) 0.
Proof.
  intros sel n Hsel Hn. simpl in Hsel.
  repeat (destruct Hsel as [<-|Hsel]; [vm_compute in Hn|]); try contradiction;
    repeat (destruct Hn as [<-|Hn]; [discriminate|]); contradiction.
Qed.

Lemma description_first_qualifying_witness :
  exists w' t rec,
    @fetch_job_description (sim job_site) job_url_101 6 0 = (w', t, Ok rec)
    /\ rec !! "description" = Some (VStr long_text).
Proof.
  destruct (@description_first_qualifying (sim job_site) job_url_101 6%Z 0
              eq_refl job_site_readable) as (w' & t & rec & Hrun & Hd).
  exists w', t, rec. split; [exact Hrun|]. rewrite Hd. vm_compute. reflexivity.
Defined.

(** C7, as stated, fails: the first strategy that finds elements finds
    only a short label, and the extractor goes on to the strategy that has
    the text of the posting. *)
Lemma description_not_first_match :
  exists w' t rec,
    @fetch_job_description (sim label_site) job_url_101 6 0 = (w', t, Ok rec)
    /\ rec !! "description" = Some (VStr long_text)
    /\ @first_matching (sim label_site) 0 desc_selectors = [0]
    /\ @description_as_specified (sim label_site) 0 = "".
Proof.
  eexists _, _, _. split; [vm_compute; reflexivity|].
  split; [vm_compute; reflexivity|].
  split; vm_compute; reflexivity.
Qed.

(** ** Similarity ranker *)

Lemma copy_then_score (h : heap) (d : pydict) (v : value) :
  setitem (length h) "score" v (h ++ [d]) = h ++ [<["score" := v]> d].
Proof.
  unfold setitem. rewrite alter_app_r_alt by lia.
  rewrite Nat.sub_diag. reflexivity.
Qed.

Lemma job_docs_length (jobs : list loc) (h : heap) (docs : list string) :
  job_docs jobs h = Ok docs -> length docs = length jobs.
Proof.
  revert docs. induction jobs as [|j jobs IH]; intros docs; simpl.
  - intros [= <-]. reflexivity.
  - destruct (h !! j) as [d|]; [|discriminate].
    destruct (doc_of d); [|discriminate].
    destruct (job_docs jobs h) as [docs'|]; [|discriminate].
    intros [= <-]. simpl. rewrite (IH docs' eq_refl). reflexivity.
Qed.

Lemma job_docs_live (jobs : list loc) (h : heap) (docs : list string) :
  job_docs jobs h = Ok docs ->
  forall idx j, jobs !! idx = Some j -> is_Some (h !! j).
Proof.
  revert docs. induction jobs as [|j0 jobs IH]; intros docs; simpl.
  - intros _ idx j H. destruct idx; discriminate.
  - destruct (h !! j0) as [d|] eqn:Ed; [|discriminate].
    destruct (doc_of d); [|discriminate].
    destruct (job_docs jobs h) as [docs'|]; [|discriminate].
    intros _ [|idx] j Hj; simpl in Hj.
    + injection Hj as <-. rewrite Ed. eauto.
    + eapply IH; [reflexivity | exact Hj].
Qed.

Lemma corpus_length (resume_text : string) (jobs : list loc) (h : heap)
    (docs : list string) :
  corpus resume_text jobs h = Ok docs -> length docs = S (length jobs).
Proof.
  unfold corpus. destruct (job_docs jobs h) as [ds|] eqn:E; [|discriminate].
  intros [= <-]. simpl. rewrite length_map.
  rewrite (job_docs_length _ _ _ E). reflexivity.
Qed.

(** The store only grows: whatever the loop does, it appends. *)
Lemma rank_loop_grows (jobs : list loc) (sims : list Q) (idxs : list nat) :
  forall ranked h,
    exists new, fst (rank_loop jobs sims idxs ranked h) = h ++ new.
Proof.
  induction idxs as [|idx rest IH]; intros ranked h; simpl.
  - exists []. rewrite app_nil_r. reflexivity.
  - destruct (jobs !! idx) as [j|]; [|exists []; rewrite app_nil_r; reflexivity].
    destruct (sims !! idx) as [s|]; [|exists []; rewrite app_nil_r; reflexivity].
    unfold copy_dict.
    destruct (h !! j) as [d|]; [|exists []; rewrite app_nil_r; reflexivity].
    rewrite copy_then_score.
    destruct (IH (ranked ++ [length h]) (h ++ [<["score" := VFloat s]> d]))
      as (new & ->).
    exists (<["score" := VFloat s]> d :: new). rewrite <- app_assoc. reflexivity.
Qed.

(** The handles the loop adds are those of the dicts it allocates. *)
Lemma rank_loop_fresh (jobs : list loc) (sims : list Q) (idxs : list nat) :
  forall ranked h out,
    snd (rank_loop jobs sims idxs ranked h) = Ok out ->
    exists added, out = ranked ++ added /\ Forall (fun l => length h <= l) added.
Proof.
  induction idxs as [|idx rest IH]; intros ranked h out; simpl.
  - intros [= <-]. exists []. rewrite app_nil_r. split; [reflexivity|constructor].
  - destruct (jobs !! idx) as [j|]; [|discriminate].
    destruct (sims !! idx) as [s|]; [|discriminate].
    unfold copy_dict. destruct (h !! j) as [d|]; [|discriminate].
    rewrite copy_then_score. intros Hout.
    destruct (IH _ _ _ Hout) as (added & -> & Hadded).
    exists (length h :: added). rewrite <- app_assoc. split; [reflexivity|].
    constructor; [lia|].
    eapply Forall_impl; [exact Hadded|]. intros l Hl. simpl in Hl.
    rewrite length_app in Hl. simpl in Hl. lia.
Qed.

(** With indices in range and live jobs, the loop appends one scored copy
    per index and returns their handles in that order. *)
Lemma rank_loop_run (jobs : list loc) (sims : list Q) (h0 : heap)
    (idxs : list nat) :
  Forall (fun idx => exists j d s,
            jobs !! idx = Some j /\ h0 !! j = Some d /\ sims !! idx = Some s) idxs ->
  forall ranked ext,
    exists new,
      rank_loop jobs sims idxs ranked (h0 ++ ext)
      = (h0 ++ ext ++ new,
         Ok (ranked ++ seq (length (h0 ++ ext)) (length idxs)))
      /\ length new = length idxs
      /\ forall k idx, idxs !! k = Some idx ->
           exists j d,
             jobs !! idx = Some j /\ h0 !! j = Some d
             /\ new !! k = Some (<["score" := VFloat (nth idx sims 0%Q)]> d).
Proof.
  induction 1 as [|idx rest (j & d & s & Hj & Hd & Hs) _ IH]; intros ranked ext.
  - exists []. simpl. rewrite !app_nil_r. repeat split. intros k idx H. destruct k; discriminate.
  - simpl. rewrite Hj, Hs. unfold copy_dict.
    rewrite (lookup_app_l_Some _ ext _ _ Hd), copy_then_score.
    destruct (IH (ranked ++ [length (h0 ++ ext)]) (ext ++ [<["score" := VFloat s]> d]))
      as (new & Hrun & Hlen & Hnew).
    rewrite <- app_assoc in Hrun. rewrite <- (app_assoc h0 ext [_]).
    rewrite Hrun. exists (<["score" := VFloat s]> d :: new).
    split; [|split].
    + rewrite <- (app_assoc ranked). simpl.
      replace (length (h0 ++ ext ++ [<["score" := VFloat s]> d]))
        with (S (length (h0 ++ ext)))
        by (rewrite !length_app; simpl; lia).
      reflexivity.
    + simpl. rewrite Hlen. reflexivity.
    + intros [|k] idx' Hk; simpl in Hk.
      * injection Hk as <-. exists j, d. rewrite (nth_lookup_Some _ _ _ _ Hs). auto.
      * apply Hnew. exact Hk.
Qed.

Lemma slice_to_nonneg {A} (k : Z) (l : list A) :
  (0 <= k)%Z -> slice_to k l = take (Z.to_nat k) l.
Proof. intros H. unfold slice_to. apply Z.leb_le in H. rewrite H. reflexivity. Qed.

(** *** The two insertion sorts keep numpy's promise *)

Section InsertionSort.
Variable before : Q -> Q -> bool.
Hypothesis before_true : forall x y, before x y = true -> (x <= y)%Q.
Hypothesis before_false : forall x y, before x y = false -> (y <= x)%Q.
Variable a : list Q.

Local Abbreviation R := (value_le a).

Lemma insert_idx_perm (i : nat) (l : list nat) :
  Permutation (insert_idx before a i l) (i :: l).
Proof.
  induction l as [|j l IH]; simpl; [reflexivity|].
  destruct (before _ _); [reflexivity|].
  rewrite IH. apply perm_swap.
Qed.

Lemma insert_idx_sorted (i : nat) (l : list nat) :
  StronglySorted R l -> StronglySorted R (insert_idx before a i l).
Proof.
  induction 1 as [|j l Hs IH Hj]; simpl.
  - constructor; constructor.
  - destruct (before (nth i a 0%Q) (nth j a 0%Q)) eqn:E.
    + constructor; [constructor; assumption|].
      apply before_true in E. constructor; [exact E|].
      eapply List.Forall_impl; [|exact Hj].
      intros k Hk. unfold R in *. eapply Qle_trans; eassumption.
    + constructor; [exact IH|].
      apply before_false in E.
      eapply Permutation_Forall; [symmetry; apply insert_idx_perm|].
      constructor; assumption.
Qed.

Lemma sort_idx_perm : Permutation (sort_idx before a) (seq 0 (length a)).
Proof.
  unfold sort_idx. induction (seq 0 (length a)) as [|i l IH]; simpl; [reflexivity|].
  rewrite insert_idx_perm, IH. reflexivity.
Qed.

Lemma sort_idx_sorted : StronglySorted R (sort_idx before a).
Proof.
  unfold sort_idx. induction (seq 0 (length a)) as [|i l IH]; simpl.
  - constructor.
  - apply insert_idx_sorted, IH.
Qed.

Lemma strongly_sorted_lookup (l : list nat) :
  StronglySorted R l ->
  forall i j x y, i <= j -> l !! i = Some x -> l !! j = Some y -> R x y.
Proof.
  induction 1 as [|z l Hs IH Hz]; intros i j x y Hij Hx Hy.
  - destruct i; discriminate.
  - destruct i as [|i], j as [|j]; simpl in Hx, Hy; try lia.
    + injection Hx as <-. injection Hy as <-. apply Qle_refl.
    + injection Hx as <-. rewrite List.Forall_forall in Hz. apply Hz.
      apply list_elem_of_In, list_elem_of_lookup. eauto.
    + eapply IH; [|eassumption|eassumption]. lia.
Qed.

End InsertionSort.

Lemma ties_in_order_sound : argsort_sound ties_in_order.
Proof.
  intros a. split; [apply sort_idx_perm|].
  apply strongly_sorted_lookup, sort_idx_sorted.
  - intros x y H. apply Qle_bool_iff, H.
  - intros x y H. apply Qlt_le_weak, Qnot_le_lt. rewrite <- Qle_bool_iff.
    congruence.
Qed.

Lemma table_vectorizer_sound (table : list (string * Q)) :
  vectorizer_sound (table_vectorizer table).
Proof.
  intros [|resume docs] sims; simpl; [discriminate|].
  destruct (negb _ && _); [discriminate|].
  intros [= <-]. apply length_map.
Qed.

Section RankerFacts.
Context {V : Vectorizer} {S : ArgSort}.
Hypothesis V_sound : vectorizer_sound V.
Hypothesis S_sound : argsort_sound S.

Lemma argsort_length (a : list Q) : length (argsort a) = length a.
Proof.
  destruct (S_sound a) as [Hp _].
  rewrite (Permutation_length Hp). apply length_seq.
Qed.

Lemma argsort_in_range (a : list Q) (k idx : nat) :
  argsort a !! k = Some idx -> idx < length a.
Proof.
  intros Hk. destruct (S_sound a) as [Hp _].
  assert (Hin : In idx (seq 0 (length a))).
  { eapply Permutation_in; [exact Hp|].
    apply list_elem_of_In, list_elem_of_lookup. eauto. }
  apply in_seq in Hin. lia.
Qed.

(** A call that gets its similarities runs to the end: it appends one
    scored copy per selected index and returns the new handles. *)
Lemma rank_run (resume_text : string) (jobs : list loc) (top_k : Z) (h : heap)
    (docs : list string) (sims : list Q) :
  corpus resume_text jobs h = Ok docs ->
  similarities docs = Ok sims ->
  let idxs := slice_to top_k (argsort (map Qopp sims)) in
  exists new,
    rank_jobs_by_similarity resume_text jobs top_k h
    = (h ++ new, Ok (seq (length h) (length idxs)))
    /\ length new = length idxs
    /\ length sims = length jobs
    /\ forall k idx, idxs !! k = Some idx ->
         exists j d,
           jobs !! idx = Some j /\ h !! j = Some d
           /\ new !! k = Some (<["score" := VFloat (nth idx sims 0%Q)]> d).
Proof.
  intros Hdocs Hsims idxs.
  assert (Hlen : length sims = length jobs).
  { rewrite (V_sound _ _ Hsims), (corpus_length _ _ _ _ Hdocs). reflexivity. }
  assert (Hlive : forall idx j, jobs !! idx = Some j -> is_Some (h !! j)).
  { unfold corpus in Hdocs. destruct (job_docs jobs h) eqn:E; [|discriminate].
    eapply job_docs_live. exact E. }
  assert (Hidx : Forall (fun idx => exists j d s,
                    jobs !! idx = Some j /\ h !! j = Some d /\ sims !! idx = Some s) idxs).
  { apply List.Forall_forall. intros idx Hin.
    apply list_elem_of_In, list_elem_of_lookup in Hin. destruct Hin as [k Hk].
    assert (Hk' : exists k', argsort (map Qopp sims) !! k' = Some idx).
    { subst idxs. unfold slice_to in Hk.
      destruct (0 <=? top_k)%Z; apply lookup_take_Some in Hk;
        destruct Hk as [Hk _]; eauto. }
    destruct Hk' as [k' Hk']. apply argsort_in_range in Hk'.
    rewrite length_map in Hk'.
    destruct (lookup_lt_is_Some_2 jobs idx) as [j Hj]; [lia|].
    destruct (lookup_lt_is_Some_2 sims idx) as [s Hs]; [lia|].
    destruct (Hlive _ _ Hj) as [d Hd]. exists j, d, s. auto. }
  destruct (rank_loop_run jobs sims h idxs Hidx [] []) as (new & Hrun & Hn & Hnew).
  rewrite app_nil_r in Hrun. simpl in Hrun.
  exists new. unfold rank_jobs_by_similarity. rewrite Hdocs, Hsims.
  fold idxs. rewrite Hrun. auto.
Qed.

Lemma score_at_new (h new : heap) (k : nat) (d : pydict) (q : Q) :
  new !! k = Some (<["score" := VFloat q]> d) ->
  score_at (h ++ new) (length h + k) = Some q.
Proof.
  intros Hk. unfold score_at.
  rewrite lookup_app_r by lia.
  replace (length h + k - length h) with k by lia.
  rewrite Hk, lookup_insert_eq. reflexivity.
Qed.

Lemma sorted_scores_descending (sims : list Q) (n : nat) :
  descending (map (fun idx => nth idx sims 0%Q) (take n (argsort (map Qopp sims)))).
Proof.
  intros i j x y Hij Hx Hy.
  rewrite list_lookup_fmap in Hx, Hy.
  destruct (take n _ !! i) as [a|] eqn:Ea; [|discriminate].
  destruct (take n _ !! j) as [b|] eqn:Eb; [|discriminate].
  injection Hx as <-. injection Hy as <-.
  apply lookup_take_Some in Ea, Eb. destruct Ea as [Ea _], Eb as [Eb _].
  destruct (S_sound (map Qopp sims)) as [_ Hs].
  specialize (Hs i j a b Hij Ea Eb).
  change 0%Q with (Qopp 0) in Hs. rewrite !map_nth in Hs.
  apply Qopp_le_compat in Hs. rewrite !Qopp_involutive in Hs. exact Hs.
Qed.

End RankerFacts.

(** C3 (amended).  For a non-negative [top_k], and whenever the
    vectorizer accepts the corpus, ranking returns
    [min(top_k, len(jobs))] records whose scores do not increase along the
    sequence; in particular it returns nothing when [jobs] is empty or
    [top_k] is zero. *)
Theorem rank_length_and_order {V : Vectorizer} {S : ArgSort}
    (resume_text : string) (jobs : list loc) (top_k : Z) (h : heap)
    (docs : list string) (sims : list Q) :
  vectorizer_sound V -> argsort_sound S ->
  (0 <= top_k)%Z ->
  corpus resume_text jobs h = Ok docs ->
  similarities docs = Ok sims ->
  exists h' ranked scores,
    rank_jobs_by_similarity resume_text jobs top_k h = (h', Ok ranked)
    /\ length ranked = Nat.min (Z.to_nat top_k) (length jobs)
    /\ Forall2 (fun l s => score_at h' l = Some s) ranked scores
    /\ descending scores
    /\ (jobs = [] -> ranked = [])
    /\ (top_k = 0%Z -> ranked = []).
Proof.
  intros HV HS Hk Hdocs Hsims.
  destruct (rank_run HV HS resume_text jobs top_k h docs sims Hdocs Hsims)
    as (new & Hrun & Hnew & Hlen & Hcopies).
  rewrite (slice_to_nonneg _ _ Hk) in Hrun, Hnew, Hcopies.
  set (idxs := take (Z.to_nat top_k) (argsort (map Qopp sims))) in *.
  assert (Hidxs : length idxs = Nat.min (Z.to_nat top_k) (length jobs)).
  { subst idxs. rewrite length_take, (argsort_length HS), length_map, Hlen.
    reflexivity. }
  exists (h ++ new), (seq (length h) (length idxs)),
    (map (fun idx => nth idx sims 0%Q) idxs).
  split; [exact Hrun|]. split; [rewrite length_seq; exact Hidxs|].
  split; [|split; [apply (sorted_scores_descending HS)|split]].
  - apply Forall2_same_length_lookup. split; [rewrite length_seq, length_map; reflexivity|].
    intros k l s Hl Hs. apply lookup_seq in Hl. destruct Hl as [-> Hlt].
    rewrite list_lookup_fmap in Hs.
    destruct (idxs !! k) as [idx|] eqn:Ei; [|discriminate]. injection Hs as <-.
    destruct (Hcopies k idx Ei) as (j & d & _ & _ & Hd).
    eapply score_at_new. exact Hd.
  - intros ->. rewrite Hidxs. simpl. rewrite Nat.min_0_r. reflexivity.
  - intros ->. rewrite Hidxs. reflexivity.
Qed.

Lemma rank_length_and_order_witness :
  exists h' ranked scores,
    @rank_jobs_by_similarity (table_vectorizer score_table) ties_in_order
      "python machine learning engineer" [0; 1; 2] 2 three_jobs
    = (h', Ok ranked)
    /\ length ranked = 2
    /\ Forall2 (fun l s => score_at h' l = Some s) ranked scores
    /\ descending scores.
Proof.
  destruct (@rank_length_and_order (table_vectorizer score_table) ties_in_order
              "python machine learning engineer" [0; 1; 2] 2%Z three_jobs
              [ "python machine learning engineer"; "python machine learning";
                "sql pipelines"; "python machine learning" ]
              [ 3 # 4; 1 # 4; 3 # 4 ]%Q
              (table_vectorizer_sound score_table) ties_in_order_sound
              ltac:(lia) eq_refl eq_refl)
    as (h' & ranked & scores & Hrun & Hlen & Hscores & Hdesc & _).
  exists h', ranked, scores. repeat split; assumption.
Defined.

(** C3, as stated, fails for a negative [top_k]: the slice [[:-1]] drops
    the last index only, so two of three jobs are returned. *)
Lemma rank_negative_top_k_not_empty :
  snd (@rank_jobs_by_similarity (table_vectorizer score_table) ties_in_order
         "python machine learning engineer" [0; 1; 2] (-1) three_jobs)
  = Ok [3; 4].
Proof. vm_compute. reflexivity. Qed.

(** X10.  For a non-negative [top_k], and whenever the vectorizer accepts
    the corpus, the records returned are scored copies of the jobs taken,
    [top_k] at most, from the front of an arrangement of all jobs in which
    scores do not increase.  Which of several jobs with the same score
    comes first is decided inside [argsort], by the library. *)
Theorem rank_sorted_copies {V : Vectorizer} {S : ArgSort}
    (resume_text : string) (jobs : list loc) (top_k : Z) (h : heap)
    (docs : list string) (sims : list Q) :
  vectorizer_sound V -> argsort_sound S ->
  (0 <= top_k)%Z ->
  corpus resume_text jobs h = Ok docs ->
  similarities docs = Ok sims ->
  exists h' ranked order,
    rank_jobs_by_similarity resume_text jobs top_k h = (h', Ok ranked)
    /\ Permutation order (seq 0 (length jobs))
    /\ descending (map (fun idx => nth idx sims 0%Q) order)
    /\ Forall2 (scored_copy_of jobs sims h h') ranked
               (take (Z.to_nat top_k) order).
Proof.
  intros HV HS Hk Hdocs Hsims.
  destruct (rank_run HV HS resume_text jobs top_k h docs sims Hdocs Hsims)
    as (new & Hrun & Hnew & Hlen & Hcopies).
  rewrite (slice_to_nonneg _ _ Hk) in Hrun, Hnew, Hcopies.
  set (order := argsort (map Qopp sims)) in *.
  exists (h ++ new), (seq (length h) (length (take (Z.to_nat top_k) order))), order.
  split; [exact Hrun|]. split; [|split].
  - destruct (HS (map Qopp sims)) as [Hp _]. rewrite length_map, Hlen in Hp.
    exact Hp.
  - rewrite <- (firstn_all order). apply (sorted_scores_descending HS).
  - apply Forall2_same_length_lookup. split; [apply length_seq|].
    intros k l idx Hl Hi. apply lookup_seq in Hl. destruct Hl as [-> Hlt].
    destruct (Hcopies k idx Hi) as (j & d & Hj & Hd & Hn).
    exists j, d. split; [exact Hj|]. split; [exact Hd|].
    rewrite lookup_app_r by lia.
    replace (length h + k - length h) with k by lia. exact Hn.
Qed.

Lemma rank_sorted_copies_witness :
  exists h' ranked order,
    @rank_jobs_by_similarity (table_vectorizer score_table) ties_in_order
      "python machine learning engineer" [0; 1; 2] 2 three_jobs
    = (h', Ok ranked)
    /\ Permutation order [0; 1; 2]
    /\ Forall2 (scored_copy_of [0; 1; 2] [ 3 # 4; 1 # 4; 3 # 4 ]%Q three_jobs h')
               ranked (take 2 order).
Proof.
  destruct (@rank_sorted_copies (table_vectorizer score_table) ties_in_order
              "python machine learning engineer" [0; 1; 2] 2%Z three_jobs
              [ "python machine learning engineer"; "python machine learning";
                "sql pipelines"; "python machine learning" ]
              [ 3 # 4; 1 # 4; 3 # 4 ]%Q
              (table_vectorizer_sound score_table) ties_in_order_sound
              ltac:(lia) eq_refl eq_refl)
    as (h' & ranked & order & Hrun & Hperm & _ & Hcopies).
  exists h', ranked, order. repeat split; assumption.
Defined.

(** C10.  Ranking leaves every dict of the store as it was, whether the
    call returns or raises, and the records it returns are dicts that did
    not exist before the call: the score is written to copies only. *)
Theorem rank_leaves_inputs_unchanged {V : Vectorizer} {S : ArgSort}
    (resume_text : string) (jobs : list loc) (top_k : Z) (h : heap) :
  (forall l d,
      h !! l = Some d ->
      fst (rank_jobs_by_similarity resume_text jobs top_k h) !! l = Some d)
  /\ (forall ranked,
        snd (rank_jobs_by_similarity resume_text jobs top_k h) = Ok ranked ->
        forall l, In l ranked -> h !! l = None).
Proof.
  unfold rank_jobs_by_similarity.
  destruct (corpus resume_text jobs h) as [docs|];
    [|split; [auto | discriminate]].
  destruct (similarities docs) as [sims|]; [|split; [auto | discriminate]].
  split.
  - intros l d Hl.
    destruct (rank_loop_grows jobs sims
                (slice_to top_k (argsort (map Qopp sims))) [] h) as (new & ->).
    apply lookup_app_l_Some, Hl.
  - intros ranked Hr l Hin.
    destruct (rank_loop_fresh _ _ _ _ _ _ Hr) as (added & -> & Hfresh).
    simpl in Hin. rewrite List.Forall_forall in Hfresh.
    apply lookup_ge_None. apply Hfresh, Hin.
Qed.

(** ** Application driver *)

Section ScriptInversion.
Context {B : Browser}.



End ScriptInversion.

Section ReplayFacts.
Context {B : Browser}.















End ReplayFacts.



Section DriverLookups.
Context {B : Browser}.
Variable abspath : string -> string.















End DriverLookups.





(** The terminal control of [wizard_site] shows on the third of the
    eight steps; the two clicks of the step loop go to Next controls. *)
Example wizard_run :
  let '(w', t, r) :=
    @click_easy_apply_and_fill (sim wizard_site) path_as_given job_url_101
      None (Some cover_letter) None false 0 in
  w' = 3 /\ r = Ok true
  /\ @find_element (sim wizard_site) terminal_locator 3 = Ok 1
  /\ @clicks (sim wizard_site) t = [0; 2; 0]
  /\ @keys_sent (sim wizard_site) t = [(1, cover_letter)].
Proof. vm_compute. auto. Qed.

Section EntryPoint.
Context {B : Browser}.
Variable abspath : string -> string.

Lemma seek_entry_run (w : world) :
  exists t,
    seek_entry w = (fst (entry_point w), t, Ok (snd (entry_point w)))
    /\ ((t = [EWait 4 (element_to_be_clickable easy_apply_locator)]
         /\ exists btn, snd (entry_point w) = Some btn)
        \/ t = [ EWait 4 (element_to_be_clickable easy_apply_locator);
                 EFindElement easy_apply_loose_locator ]).
Proof.
  unfold seek_entry, entry_point, try_except, bind, wait, action, find1, query, ret.
  destruct (wait_until 4 _ w) as [w1 [e|]].
  - eexists. split; [reflexivity|]. left. simpl. eauto.
  - destruct (find_element easy_apply_loose_locator w1) as [e|];
      eexists; (split; [reflexivity|]); right; reflexivity.
Qed.

End EntryPoint.

(** C8.  When the page, once reached, offers no entry control that can
    be activated (neither locator finds one, or the click on the one found
    raises), the driver reports that and returns [False], and its whole
    run is the arrival on the page, the search for the control and one
    console line: no field is filled and the step loop is never entered. *)
Theorem no_entry_point_no_fill {B : Browser} (abspath : string -> string)
    (job_url : string) (resume_path cover_text phone : option string)
    (auto_submit : bool) (w w1 w2 : world) (z : Z) :
  driver_get job_url w = (w1, Ok tt) ->
  execute_script js_scroll_to (time_sleep w1) = (w2, Ok z) ->
  no_activatable_entry (time_sleep w2) ->
  let arrival :=
    [ EGet job_url; ESleep; EScript js_scroll_to; ESleep;
      EWait 4 (element_to_be_clickable easy_apply_locator) ] in
  exists w' t,
    click_easy_apply_and_fill abspath job_url resume_path cover_text phone
      auto_submit w
    = (w', t, Ok false)
    /\ (t = arrival ++ [ EFindElement easy_apply_loose_locator;
                         EPrint (NoEasyApplyFound job_url) ]
        \/ (exists btn, t = arrival ++ [ EClick btn; EPrint ClickFailed ])
        \/ (exists btn,
              t = arrival ++ [ EFindElement easy_apply_loose_locator;
                               EClick btn; EPrint ClickFailed ]))
    /\ keys_sent t = []
    /\ Forall (fun ev => fill_or_step_event ev = false) t.
Proof.
  intros Hget Hscript Hentry arrival.
  destruct (seek_entry_run (time_sleep w2)) as (ts & Hseek & Hts).
  unfold no_activatable_entry in Hentry.
  destruct (entry_point (time_sleep w2)) as [w3 entry] eqn:Ee.
  simpl in Hseek, Hts.
  unfold click_easy_apply_and_fill.
  erewrite bind_ok by (unfold get, action; rewrite Hget; reflexivity).
  erewrite bind_ok by reflexivity.
  erewrite bind_ok by (unfold script, action; rewrite Hscript; reflexivity).
  erewrite bind_ok by reflexivity.
  erewrite bind_ok by exact Hseek.
  destruct entry as [btn|].
  - destruct (el_click btn w3) as [w4 rc] eqn:Ec. simpl in Hentry. subst rc.
    erewrite bind_ok by (unfold attempt, click, action; rewrite Ec; reflexivity).
    exists w4. eexists. split; [reflexivity|].
    destruct Hts as [[-> _]| ->].
    + split; [right; left; exists btn; reflexivity|].
      split; [reflexivity | repeat constructor].
    + split; [right; right; exists btn; reflexivity|].
      split; [reflexivity | repeat constructor].
  - exists w3. eexists. split; [reflexivity|].
    destruct Hts as [[_ [btn Hb]]| ->]; [discriminate|].
    split; [left; reflexivity|].
    split; [reflexivity | repeat constructor].
Qed.

Lemma no_entry_point_no_fill_witness :
  exists w' t,
    @click_easy_apply_and_fill (sim external_site) path_as_given job_url_101
      (Some "/home/adya/resume.pdf") (Some cover_letter) (Some "5550100") false 0
    = (w', t, Ok false)
    /\ keys_sent t = [].
Proof.
  destruct (@no_entry_point_no_fill (sim external_site) path_as_given job_url_101
              (Some "/home/adya/resume.pdf") (Some cover_letter) (Some "5550100")
              false 0 0 0 (extent (frame_at external_site 0))
              eq_refl eq_refl I)
    as (w' & t & Hrun & _ & Hkeys & _).
  exists w', t. split; assumption.
Defined.

Section CoverText.
Context {B : Browser}.

Lemma keys_sent_app (t1 t2 : list event) :
  keys_sent (t1 ++ t2) = keys_sent t1 ++ keys_sent t2.
Proof.
  induction t1 as [|ev t1 IH]; simpl; [reflexivity|].
  destruct ev; simpl; rewrite ?IH; reflexivity.
Qed.

Lemma safe_send_keys_sent (el : elem) (text : string) (w : world) :
  keys_sent (events_of (safe_send_keys el text w)) = [(el, text)].
Proof.
  unfold safe_send_keys, events_of, bind, try_except, clear, send_keys, action, ret.
  destruct (el_clear el w) as [w1 [[]|]];
    destruct (el_send_keys el text _) as [w2 r]; reflexivity.
Qed.

Lemma attr_lower_run (el : elem) (name : string) (w : world) :
  attr_lower el name w = (w, [EGetAttribute el name], attr_lower_at w el name).
Proof.
  unfold attr_lower, attr_lower_at, bind, attribute, query, ret.
  destruct (get_attribute el name w); reflexivity.
Qed.

(** The keyword scan passes over areas that are no match without sending
    anything. *)
Lemma fill_keyword_area_skip (cover_text : string) (w : world)
    (pre rest : list elem) :
  Forall (fun x => keyword_area w x = Ok false) pre ->
  exists t,
    keys_sent t = []
    /\ fill_keyword_area cover_text (pre ++ rest) w
       = (let '(w', t', r) := fill_keyword_area cover_text rest w in
          (w', t ++ t', r)).
Proof.
  induction 1 as [|x pre Hx _ (t & Hk & IH)].
  - exists []. split; [reflexivity|].
    simpl. destruct (fill_keyword_area cover_text rest w) as [[? ?] ?]. reflexivity.
  - unfold keyword_area in Hx.
    destruct (attr_lower_at w x "placeholder") as [ph|] eqn:Eph; [|discriminate].
    destruct (attr_lower_at w x "name") as [name|] eqn:En; [|discriminate].
    injection Hx as Hx.
    exists ([EGetAttribute x "placeholder"] ++ [EGetAttribute x "name"] ++ t).
    split; [exact Hk|].
    simpl fill_keyword_area.
    erewrite bind_ok by (rewrite attr_lower_run, Eph; reflexivity).
    erewrite bind_ok by (rewrite attr_lower_run, En; reflexivity).
    rewrite Hx, IH.
    destruct (fill_keyword_area cover_text rest w) as [[? ?] ?].
    rewrite <- !app_assoc. reflexivity.
Qed.

Lemma fill_keyword_area_none (cover_text : string) (w : world) (areas : list elem) :
  Forall (fun x => keyword_area w x = Ok false) areas ->
  exists t,
    keys_sent t = []
    /\ fill_keyword_area cover_text areas w = (w, t, Ok false).
Proof.
  intros H. destruct (fill_keyword_area_skip cover_text w areas [] H) as (t & Hk & Hrun).
  rewrite app_nil_r in Hrun. exists t. split; [exact Hk|].
  rewrite Hrun. simpl. rewrite app_nil_r. reflexivity.
Qed.

Lemma fill_keyword_area_hit (cover_text : string) (w : world) (ta : elem)
    (post : list elem) :
  keyword_area w ta = Ok true ->
  keys_sent (events_of (fill_keyword_area cover_text (ta :: post) w))
  = [(ta, cover_text)]
  /\ snd (fill_keyword_area cover_text (ta :: post) w) <> Ok false.
Proof.
  intros Hx. unfold keyword_area in Hx.
  destruct (attr_lower_at w ta "placeholder") as [ph|] eqn:Eph; [|discriminate].
  destruct (attr_lower_at w ta "name") as [name|] eqn:En; [|discriminate].
  injection Hx as Hx.
  simpl fill_keyword_area.
  erewrite bind_ok by (rewrite attr_lower_run, Eph; reflexivity).
  erewrite bind_ok by (rewrite attr_lower_run, En; reflexivity).
  rewrite Hx.
  pose proof (safe_send_keys_sent ta cover_text w) as Hs.
  unfold events_of, bind, print, ret in *.
  destruct (safe_send_keys ta cover_text w) as [[w1 t1] [[]|]]; simpl in *;
    rewrite ?keys_sent_app, Hs; split; (reflexivity || discriminate).
Qed.

Lemma fill_first_visible_hit (cover_text : string) (w : world)
    (pre : list elem) (ta : elem) (post : list elem) :
  Forall (fun x => is_displayed x w = Ok false) pre ->
  is_displayed ta w = Ok true ->
  keys_sent (events_of (fill_first_visible cover_text (pre ++ ta :: post) w))
  = [(ta, cover_text)].
Proof.
  intros Hpre Hta. induction Hpre as [|x pre Hx _ IH].
  - simpl fill_first_visible.
    erewrite bind_ok by (unfold displayed, query; rewrite Hta; reflexivity).
    pose proof (safe_send_keys_sent ta cover_text w) as Hs.
    unfold events_of, bind, print in *.
    destruct (safe_send_keys ta cover_text w) as [[w1 t1] [[]|]]; simpl in *;
      rewrite ?keys_sent_app, Hs; reflexivity.
  - simpl fill_first_visible.
    erewrite bind_ok by (unfold displayed, query; rewrite Hx; reflexivity).
    unfold events_of in *.
    destruct (fill_first_visible cover_text (pre ++ ta :: post) w) as [[w1 t1] r1].
    simpl in *. exact IH.
Qed.

Lemma fill_rich_area_hit (cover_text : string) (w : world)
    (pre : list elem) (d : elem) (post : list elem) :
  Forall (fun x => rich_area w x = Ok false) pre ->
  rich_area w d = Ok true ->
  snd (el_click d w) = Ok tt ->
  keys_sent (events_of (fill_rich_area cover_text (pre ++ d :: post) w))
  = [(d, str_take 1000 cover_text)].
Proof.
  intros Hpre Hd Hclick. unfold rich_area in *.
  induction Hpre as [|x pre Hx _ IH].
  - simpl fill_rich_area.
    destruct (attr_lower_at w d "aria-label") as [aria|] eqn:Ea; [|discriminate].
    injection Hd as Hd.
    erewrite bind_ok by (rewrite attr_lower_run, Ea; reflexivity).
    rewrite Hd.
    unfold events_of, bind, click, send_keys, action, print.
    destruct (el_click d w) as [w1 rc]. simpl in Hclick. subst rc.
    destruct (el_send_keys d _ w1) as [w2 [[]|]]; reflexivity.
  - simpl fill_rich_area.
    destruct (attr_lower_at w x "aria-label") as [aria|] eqn:Ea; [|discriminate].
    injection Hx as Hx.
    erewrite bind_ok by (rewrite attr_lower_run, Ea; reflexivity).
    rewrite Hx. unfold events_of in *.
    destruct (fill_rich_area cover_text (pre ++ d :: post) w) as [[w1 t1] r1].
    simpl in *. exact IH.
Qed.

End CoverText.

Section CoverTextTheorem.
Context {B : Browser}.

Lemma fill_textareas_total (cover_text : string) (w : world) :
  exists w1 t, fill_textareas cover_text w = (w1, t, Ok tt).
Proof.
  unfold fill_textareas, try_except.
  match goal with |- context [match ?m w with _ => _ end] =>
    destruct (m w) as [[w1 t1] [[]|]] end; eauto.
Qed.

Lemma fill_textareas_keyword (cover_text : string) (w : world)
    (pre : list elem) (ta : elem) (post : list elem) :
  find_elements textarea_locator w = Ok (pre ++ ta :: post) ->
  Forall (fun x => keyword_area w x = Ok false) pre ->
  keyword_area w ta = Ok true ->
  keys_sent (events_of (fill_textareas cover_text w)) = [(ta, cover_text)].
Proof.
  intros Hfind Hpre Hta.
  destruct (fill_keyword_area_skip cover_text w pre (ta :: post) Hpre)
    as (t0 & Hk0 & Hskip).
  destruct (fill_keyword_area_hit cover_text w ta post Hta) as [Hsent Hres].
  unfold fill_textareas, try_except.
  erewrite bind_ok by (unfold find_all, query; rewrite Hfind; reflexivity).
  unfold bind at 1. rewrite Hskip. unfold events_of in *.
  destruct (fill_keyword_area cover_text (ta :: post) w) as [[w1 t1] r1].
  simpl in Hsent, Hres.
  destruct r1 as [[|]|]; [| contradiction Hres; reflexivity |];
    simpl; rewrite ?app_nil_r, ?keys_sent_app, Hk0, Hsent; reflexivity.
Qed.

Lemma fill_textareas_fallback (cover_text : string) (w : world)
    (pre : list elem) (ta : elem) (post : list elem) :
  find_elements textarea_locator w = Ok (pre ++ ta :: post) ->
  Forall (fun x => keyword_area w x = Ok false) (pre ++ ta :: post) ->
  Forall (fun x => is_displayed x w = Ok false) pre ->
  is_displayed ta w = Ok true ->
  keys_sent (events_of (fill_textareas cover_text w)) = [(ta, cover_text)].
Proof.
  intros Hfind Hnone Hpre Hta.
  destruct (fill_keyword_area_none cover_text w _ Hnone) as (t0 & Hk0 & Hrun).
  pose proof (fill_first_visible_hit cover_text w pre ta post Hpre Hta) as Hsent.
  unfold fill_textareas, try_except.
  erewrite bind_ok by (unfold find_all, query; rewrite Hfind; reflexivity).
  erewrite bind_ok by exact Hrun.
  replace (length (pre ++ ta :: post) =? 0) with false
    by (rewrite length_app; simpl; symmetry; apply Nat.eqb_neq; lia).
  change (negb false && negb false) with true. cbv iota.
  unfold events_of in *.
  destruct (fill_first_visible cover_text (pre ++ ta :: post) w) as [[w1 t1] [[]|]];
    simpl in *; rewrite ?app_nil_r, ?keys_sent_app, Hk0, Hsent; reflexivity.
Qed.

Lemma fill_rich_areas_hit (cover_text : string) (w : world)
    (pre : list elem) (d : elem) (post : list elem) :
  truthy (strip cover_text) = true ->
  find_elements contenteditable_locator w = Ok (pre ++ d :: post) ->
  Forall (fun x => rich_area w x = Ok false) pre ->
  rich_area w d = Ok true ->
  snd (el_click d w) = Ok tt ->
  exists w' t,
    fill_rich_areas cover_text w = (w', t, Ok tt)
    /\ keys_sent t = [(d, str_take 1000 cover_text)].
Proof.
  intros Hcover Hfind Hpre Hd Hclick.
  pose proof (fill_rich_area_hit cover_text w pre d post Hpre Hd Hclick) as Hsent.
  unfold fill_rich_areas. rewrite Hcover. unfold try_except.
  erewrite bind_ok by (unfold find_all, query; rewrite Hfind; reflexivity).
  unfold events_of in Hsent.
  destruct (fill_rich_area cover_text (pre ++ d :: post) w) as [[w1 t1] [[]|]];
    simpl in *; eexists _, _; (split; [reflexivity|]);
    rewrite ?app_nil_r; exact Hsent.
Qed.

End CoverTextTheorem.

(** C6 (amended).  With a cover text given, the driver types it into the
    first free-text area whose placeholder or name contains, in any case,
    one of [cover_keywords], whatever unrelated areas come before it; when
    no area is such a match it types it into the first visible area.
    Whether or not an area took the text, a cover text that is not blank
    is then also typed, cut to 1000 characters, into the first
    rich-text region whose aria-label contains one of [rich_keywords]
    (cover, message, summary, why). *)
Theorem cover_text_placement {B : Browser} (cover_text : string) (w : world) :
  truthy cover_text = true ->
  (forall pre ta post,
      find_elements textarea_locator w = Ok (pre ++ ta :: post) ->
      Forall (fun x => keyword_area w x = Ok false) pre ->
      keyword_area w ta = Ok true ->
      keys_sent (events_of (fill_textareas cover_text w)) = [(ta, cover_text)])
  /\ (forall pre ta post,
        find_elements textarea_locator w = Ok (pre ++ ta :: post) ->
        Forall (fun x => keyword_area w x = Ok false) (pre ++ ta :: post) ->
        Forall (fun x => is_displayed x w = Ok false) pre ->
        is_displayed ta w = Ok true ->
        keys_sent (events_of (fill_textareas cover_text w)) = [(ta, cover_text)])
  /\ (forall pre d post,
        let w1 := world_after (fill_textareas cover_text w) in
        truthy (strip cover_text) = true ->
        find_elements contenteditable_locator w1 = Ok (pre ++ d :: post) ->
        Forall (fun x => rich_area w1 x = Ok false) pre ->
        rich_area w1 d = Ok true ->
        snd (el_click d w1) = Ok tt ->
        keys_sent (events_of (fill_cover (Some cover_text) w))
        = keys_sent (events_of (fill_textareas cover_text w))
          ++ [(d, str_take 1000 cover_text)]).
Proof.
  intros Hgiven. split; [|split].
  - intros pre ta post. apply fill_textareas_keyword.
  - intros pre ta post. apply fill_textareas_fallback.
  - intros pre d post w1 Hcover Hfind Hpre Hd Hclick.
    destruct (fill_textareas_total cover_text w) as (w1' & t1 & Hrun).
    unfold world_after in w1. subst w1. rewrite Hrun in *. simpl in *.
    destruct (fill_rich_areas_hit cover_text w1' pre d post
                Hcover Hfind Hpre Hd Hclick) as (w2 & t2 & Hrich & Hsent).
    unfold fill_cover, given. rewrite Hgiven. simpl default.
    erewrite bind_ok by exact Hrun. rewrite Hrich.
    unfold events_of. simpl. rewrite keys_sent_app, Hsent. reflexivity.
Qed.

Lemma cover_text_placement_witness :
  keys_sent (events_of (@fill_textareas (sim wizard_site) cover_letter 1))
  = [(1, cover_letter)].
Proof.
  destruct (@cover_text_placement (sim wizard_site) cover_letter 1 eq_refl)
    as [Hkeyword _].
  apply (Hkeyword [0] 1 []).
  - reflexivity.
  - repeat constructor.
  - reflexivity.
Defined.

(** C6, as stated, fails twice.  On [rich_site] a keyword free-text area
    takes the cover text and the rich-text region is filled all the same;
    on [notes_site] nothing takes the text, and the rich-text region, whose
    label has three keywords of the free-text list, stays empty. *)
Lemma rich_text_not_a_fallback :
  keys_sent (events_of (@fill_cover (sim rich_site) (Some cover_letter) 0))
  = [(0, cover_letter); (1, cover_letter)]
  /\ keys_sent (events_of (@fill_cover (sim notes_site) (Some cover_letter) 0))
     = []
  /\ any_in cover_keywords (lower "Additional notes about you") = true
  /\ any_in rich_keywords (lower "Additional notes about you") = false.
Proof. vm_compute. auto. Qed.

Lemma rank_leaves_inputs_unchanged_witness :
  fst (@rank_jobs_by_similarity (table_vectorizer score_table) ties_in_order
         "python machine learning engineer" [0; 1; 2] 2 three_jobs) !! 0
  = Some job_101.
Proof.
  apply (proj1 (@rank_leaves_inputs_unchanged (table_vectorizer score_table)
                  ties_in_order "python machine learning engineer"
                  [0; 1; 2] 2%Z three_jobs)).
  reflexivity.
Defined.

(* ===================================================================== *)
(** * Part III.  Further properties of the code                           *)
(* ===================================================================== *)

(** ** Ranker: slices, failures, copies *)

Lemma slice_to_negative {A} (k : Z) (l : list A) :
  (k < 0)%Z -> slice_to k l = take (length l - Z.to_nat (- k)) l.
Proof.
  intros H. unfold slice_to, len.
  replace (0 <=? k)%Z with false by (symmetry; apply Z.leb_gt; exact H).
  f_equal. lia.
Qed.

(** X1.  A negative [top_k] does not empty the result: the slice
    [[:top_k]] drops that many records from the low end of the ranking, so
    [len(jobs) + top_k] records come back (none once that is negative),
    best first. *)
Theorem rank_negative_top_k {V : Vectorizer} {S : ArgSort}
    (resume_text : string) (jobs : list loc) (top_k : Z) (h : heap)
    (docs : list string) (sims : list Q) :
  vectorizer_sound V -> argsort_sound S ->
  (top_k < 0)%Z ->
  corpus resume_text jobs h = Ok docs ->
  similarities docs = Ok sims ->
  exists h' ranked order,
    rank_jobs_by_similarity resume_text jobs top_k h = (h', Ok ranked)
    /\ length ranked = length jobs - Z.to_nat (- top_k)
    /\ Permutation order (seq 0 (length jobs))
    /\ descending (map (fun idx => nth idx sims 0%Q) order)
    /\ Forall2 (scored_copy_of jobs sims h h') ranked
               (take (length jobs - Z.to_nat (- top_k)) order).
Proof.
  intros HV HS Hk Hdocs Hsims.
  destruct (rank_run HV HS resume_text jobs top_k h docs sims Hdocs Hsims)
    as (new & Hrun & Hnew & Hlen & Hcopies).
  rewrite (slice_to_negative _ _ Hk) in Hrun, Hnew, Hcopies.
  rewrite (argsort_length HS), length_map, Hlen in Hrun, Hnew, Hcopies.
  set (order := argsort (map Qopp sims)) in *.
  set (n := length jobs - Z.to_nat (- top_k)) in *.
  assert (Horder : length order = length jobs).
  { subst order. rewrite (argsort_length HS), length_map. exact Hlen. }
  exists (h ++ new), (seq (length h) (length (take n order))), order.
  split; [exact Hrun|]. split; [|split; [|split]].
  - rewrite length_seq, length_take, Horder. subst n. lia.
  - destruct (HS (map Qopp sims)) as [Hp _]. rewrite length_map, Hlen in Hp.
    exact Hp.
  - rewrite <- (firstn_all order). apply (sorted_scores_descending HS).
  - apply Forall2_same_length_lookup. split; [apply length_seq|].
    intros k l idx Hl Hi. apply lookup_seq in Hl. destruct Hl as [-> Hlt].
    destruct (Hcopies k idx Hi) as (j & d & Hj & Hd & Hn).
    exists j, d. split; [exact Hj|]. split; [exact Hd|].
    rewrite lookup_app_r by lia.
    replace (length h + k - length h) with k by lia. exact Hn.
Qed.

Lemma rank_negative_top_k_witness :
  exists h' ranked,
    @rank_jobs_by_similarity (table_vectorizer score_table) ties_in_order
      "python machine learning engineer" [0; 1; 2] (-1) three_jobs
    = (h', Ok ranked)
    /\ length ranked = 2.
Proof.
  destruct (@rank_negative_top_k (table_vectorizer score_table) ties_in_order
              "python machine learning engineer" [0; 1; 2] (-1)%Z three_jobs
              [ "python machine learning engineer"; "python machine learning";
                "sql pipelines"; "python machine learning" ]
              [ 3 # 4; 1 # 4; 3 # 4 ]%Q
              (table_vectorizer_sound score_table) ties_in_order_sound
              ltac:(lia) eq_refl eq_refl)
    as (h' & ranked & order & Hrun & Hlen & _).
  exists h', ranked. split; [exact Hrun | exact Hlen].
Defined.

Lemma job_docs_missing_key (jobs : list loc) (h : heap) (j : loc) (d : pydict) :
  In j jobs -> h !! j = Some d -> d !! "description" = None ->
  job_docs jobs h = Raise.
Proof.
  intros Hin Hj Hd. induction jobs as [|j0 jobs IH]; [destruct Hin|].
  simpl. destruct Hin as [->|Hin].
  - rewrite Hj. unfold doc_of. rewrite Hd. reflexivity.
  - rewrite (IH Hin). destruct (h !! j0) as [d0|]; [|reflexivity].
    destruct (doc_of d0); reflexivity.
Qed.

(** X2.  A job dict without a ["description"] key makes the ranker raise
    (the [KeyError] of line 225) before anything is allocated: the store is
    left exactly as it was. *)
Theorem rank_missing_description {V : Vectorizer} {S : ArgSort}
    (resume_text : string) (jobs : list loc) (top_k : Z) (h : heap)
    (j : loc) (d : pydict) :
  In j jobs -> h !! j = Some d -> d !! "description" = None ->
  rank_jobs_by_similarity resume_text jobs top_k h = (h, Raise).
Proof.
  intros Hin Hj Hd. unfold rank_jobs_by_similarity, corpus.
  rewrite (job_docs_missing_key jobs h j d Hin Hj Hd). reflexivity.
Qed.

Lemma rank_missing_description_witness :
  @rank_jobs_by_similarity (table_vectorizer score_table) ties_in_order
    "python" [0; 1] 5
    [ job_101; <["title" := VStr "Data Engineer"]> ∅ ]
  = ([ job_101; <["title" := VStr "Data Engineer"]> ∅ ], Raise).
Proof.
  apply (@rank_missing_description (table_vectorizer score_table) ties_in_order
           "python" [0; 1] 5%Z [ job_101; <["title" := VStr "Data Engineer"]> ∅ ]
           1 (<["title" := VStr "Data Engineer"]> ∅)).
  - right. left. reflexivity.
  - reflexivity.
  - reflexivity.
Defined.

(** X3.  With libraries that keep their promises the ranker raises only
    where the corpus cannot be built or the vectorizer refuses it, and a
    call that raises has allocated nothing: the store is unchanged. *)
Theorem rank_raises_cleanly {V : Vectorizer} {S : ArgSort}
    (resume_text : string) (jobs : list loc) (top_k : Z) (h : heap) :
  vectorizer_sound V -> argsort_sound S ->
  snd (rank_jobs_by_similarity resume_text jobs top_k h) = Raise ->
  fst (rank_jobs_by_similarity resume_text jobs top_k h) = h
  /\ (corpus resume_text jobs h = Raise
      \/ exists docs, corpus resume_text jobs h = Ok docs
                      /\ similarities docs = Raise).
Proof.
  intros HV HS Hraise.
  destruct (corpus resume_text jobs h) as [docs|] eqn:Hdocs.
  - destruct (similarities docs) as [sims|] eqn:Hsims.
    + destruct (rank_run HV HS resume_text jobs top_k h docs sims Hdocs Hsims)
        as (new & Hrun & _).
      rewrite Hrun in Hraise. discriminate Hraise.
    + unfold rank_jobs_by_similarity. rewrite Hdocs, Hsims.
      split; [reflexivity|]. right. exists docs. auto.
  - unfold rank_jobs_by_similarity. rewrite Hdocs. split; [reflexivity|].
    left. reflexivity.
Qed.

Lemma rank_raises_cleanly_witness :
  fst (@rank_jobs_by_similarity (table_vectorizer score_table) ties_in_order
         "   " [] 5 three_jobs)
  = three_jobs.
Proof.
  apply (@rank_raises_cleanly (table_vectorizer score_table) ties_in_order
           "   " [] 5%Z three_jobs
           (table_vectorizer_sound score_table) ties_in_order_sound eq_refl).
Defined.

(** X4.  The records a call returns are pairwise different dicts, none of
    which existed before, even when the same job dict occurs several times
    in [jobs]. *)
Theorem rank_returns_distinct_copies {V : Vectorizer} {S : ArgSort}
    (resume_text : string) (jobs : list loc) (top_k : Z) (h h' : heap)
    (ranked : list loc) :
  vectorizer_sound V -> argsort_sound S ->
  rank_jobs_by_similarity resume_text jobs top_k h = (h', Ok ranked) ->
  List.NoDup ranked
  /\ Forall (fun l => length h <= l < length h') ranked.
Proof.
  intros HV HS Hrun.
  destruct (corpus resume_text jobs h) as [docs|] eqn:Hdocs;
    [|unfold rank_jobs_by_similarity in Hrun; rewrite Hdocs in Hrun; discriminate].
  destruct (similarities docs) as [sims|] eqn:Hsims;
    [|unfold rank_jobs_by_similarity in Hrun; rewrite Hdocs, Hsims in Hrun;
      discriminate].
  destruct (rank_run HV HS resume_text jobs top_k h docs sims Hdocs Hsims)
    as (new & Hrun' & Hnew & _).
  rewrite Hrun' in Hrun. injection Hrun as <- <-.
  split; [apply NoDup_ListNoDup, NoDup_seq|].
  apply List.Forall_forall. intros l Hl. apply in_seq in Hl.
  rewrite length_app, Hnew. lia.
Qed.

Lemma three_jobs_rank_aliased :
  snd (@rank_jobs_by_similarity (table_vectorizer score_table) ties_in_order
         "python machine learning engineer" [0; 0; 1] 3 three_jobs)
  = Ok [3; 4; 5]
  /\ length (fst (@rank_jobs_by_similarity (table_vectorizer score_table)
                    ties_in_order "python machine learning engineer"
                    [0; 0; 1] 3 three_jobs))
     = 6.
Proof. split; vm_compute; reflexivity. Qed.

Lemma rank_returns_distinct_copies_witness :
  List.NoDup [3; 4; 5]
  /\ Forall (fun l => 3 <= l < 6) [3; 4; 5].
Proof.
  destruct three_jobs_rank_aliased as [Hranked Hlength].
  destruct (@rank_jobs_by_similarity (table_vectorizer score_table) ties_in_order
              "python machine learning engineer" [0; 0; 1] 3 three_jobs)
    as [h' r] eqn:Hrun.
  simpl in Hranked, Hlength. subst r. rewrite <- Hlength.
  exact (@rank_returns_distinct_copies (table_vectorizer score_table)
           ties_in_order "python machine learning engineer" [0; 0; 1] 3%Z
           three_jobs h' [3; 4; 5]
           (table_vectorizer_sound score_table) ties_in_order_sound Hrun).
Defined.

(** X5.  Every record returned is a job record with nothing but the
    score changed: under each key other than ["score"] it holds what the
    job it was copied from holds. *)
Theorem rank_copies_keep_fields {V : Vectorizer} {S : ArgSort}
    (resume_text : string) (jobs : list loc) (top_k : Z) (h h' : heap)
    (ranked : list loc) :
  vectorizer_sound V -> argsort_sound S ->
  rank_jobs_by_similarity resume_text jobs top_k h = (h', Ok ranked) ->
  forall l, In l ranked ->
    exists j d d',
      In j jobs /\ h !! j = Some d /\ h' !! l = Some d'
      /\ is_Some (d' !! "score")
      /\ forall key, key <> "score" -> d' !! key = d !! key.
Proof.
  intros HV HS Hrun l Hl.
  destruct (corpus resume_text jobs h) as [docs|] eqn:Hdocs;
    [|unfold rank_jobs_by_similarity in Hrun; rewrite Hdocs in Hrun; discriminate].
  destruct (similarities docs) as [sims|] eqn:Hsims;
    [|unfold rank_jobs_by_similarity in Hrun; rewrite Hdocs, Hsims in Hrun;
      discriminate].
  destruct (rank_run HV HS resume_text jobs top_k h docs sims Hdocs Hsims)
    as (new & Hrun' & Hnew & _ & Hcopies).
  rewrite Hrun' in Hrun. injection Hrun as <- <-.
  apply in_seq in Hl.
  set (idxs := slice_to top_k (argsort (map Qopp sims))) in *.
  destruct (lookup_lt_is_Some_2 idxs (l - length h)) as [idx Hidx]; [lia|].
  destruct (Hcopies _ _ Hidx) as (j & d & Hj & Hd & Hn).
  exists j, d, (<["score" := VFloat (nth idx sims 0%Q)]> d).
  split; [apply list_elem_of_In, list_elem_of_lookup; eauto|].
  split; [exact Hd|]. split; [|split].
  - rewrite lookup_app_r by lia. exact Hn.
  - rewrite lookup_insert_eq. eauto.
  - intros key Hkey. apply lookup_insert_ne. congruence.
Qed.

Lemma three_jobs_rank_top2 :
  snd (@rank_jobs_by_similarity (table_vectorizer score_table) ties_in_order
         "python machine learning engineer" [0; 1; 2] 2 three_jobs)
  = Ok [3; 4].
Proof. vm_compute. reflexivity. Qed.

Lemma rank_copies_keep_fields_witness :
  exists j d d',
    In j [0; 1; 2] /\ three_jobs !! j = Some d
    /\ fst (@rank_jobs_by_similarity (table_vectorizer score_table)
              ties_in_order "python machine learning engineer" [0; 1; 2] 2
              three_jobs) !! 4 = Some d'
    /\ is_Some (d' !! "score")
    /\ forall key, key <> "score" -> d' !! key = d !! key.
Proof.
  pose proof three_jobs_rank_top2 as Hranked.
  destruct (@rank_jobs_by_similarity (table_vectorizer score_table) ties_in_order
              "python machine learning engineer" [0; 1; 2] 2 three_jobs)
    as [h' r] eqn:Hrun.
  simpl in Hranked. subst r. simpl fst.
  apply (@rank_copies_keep_fields (table_vectorizer score_table) ties_in_order
           "python machine learning engineer" [0; 1; 2] 2%Z three_jobs
           h' [3; 4]
           (table_vectorizer_sound score_table) ties_in_order_sound Hrun).
  right. left. reflexivity.
Defined.

(** X6.  When at least one record is asked for and there is a job, the
    first record returned carries the highest similarity of all jobs. *)
Theorem rank_best_first {V : Vectorizer} {S : ArgSort}
    (resume_text : string) (jobs : list loc) (top_k : Z) (h : heap)
    (docs : list string) (sims : list Q) :
  vectorizer_sound V -> argsort_sound S ->
  (0 < top_k)%Z -> jobs <> [] ->
  corpus resume_text jobs h = Ok docs ->
  similarities docs = Ok sims ->
  exists h' l rest best,
    rank_jobs_by_similarity resume_text jobs top_k h = (h', Ok (l :: rest))
    /\ score_at h' l = Some best
    /\ forall i x, sims !! i = Some x -> (x <= best)%Q.
Proof.
  intros HV HS Hk Hjobs Hdocs Hsims.
  destruct (rank_run HV HS resume_text jobs top_k h docs sims Hdocs Hsims)
    as (new & Hrun & Hnew & Hlen & Hcopies).
  assert (Hk0 : (0 <= top_k)%Z) by lia.
  rewrite (slice_to_nonneg _ _ Hk0) in Hrun, Hnew, Hcopies.
  set (order := argsort (map Qopp sims)) in *.
  assert (Horder : length order = length jobs).
  { subst order. rewrite (argsort_length HS), length_map. exact Hlen. }
  assert (Hpos : 0 < length jobs) by (destruct jobs; [congruence | simpl; lia]).
  destruct (lookup_lt_is_Some_2 order 0) as [idx0 H0]; [lia|].
  assert (Ht0 : take (Z.to_nat top_k) order !! 0 = Some idx0).
  { rewrite lookup_take_lt by lia. exact H0. }
  destruct (Hcopies 0 idx0 Ht0) as (j & d & _ & _ & Hn).
  assert (Hlt : 0 < length (take (Z.to_nat top_k) order)).
  { apply lookup_lt_Some in Ht0. exact Ht0. }
  destruct (length (take (Z.to_nat top_k) order)) as [|m] eqn:Em; [lia|].
  simpl in Hrun.
  exists (h ++ new), (length h), (seq (Datatypes.S (length h)) m),
    (nth idx0 sims 0%Q).
  split; [exact Hrun|]. split.
  - pose proof (score_at_new h new 0 d _ Hn) as Hscore.
    rewrite Nat.add_0_r in Hscore. exact Hscore.
  - intros i x Hi.
    destruct (HS (map Qopp sims)) as [Hp Hs].
    assert (Hin : In i (argsort (map Qopp sims))).
    { eapply Permutation_in; [symmetry; exact Hp|].
      apply in_seq. rewrite length_map. apply lookup_lt_Some in Hi. lia. }
    apply list_elem_of_In, list_elem_of_lookup in Hin. destruct Hin as [p Hp'].
    specialize (Hs 0 p idx0 i ltac:(lia) H0 Hp').
    change 0%Q with (Qopp 0) in Hs. rewrite !map_nth in Hs.
    apply Qopp_le_compat in Hs. rewrite !Qopp_involutive in Hs.
    rewrite (nth_lookup_Some _ _ _ _ Hi) in Hs. exact Hs.
Qed.

Lemma rank_best_first_witness :
  exists h' l rest best,
    @rank_jobs_by_similarity (table_vectorizer score_table) ties_in_order
      "python machine learning engineer" [1; 0; 2] 1 three_jobs
    = (h', Ok (l :: rest))
    /\ score_at h' l = Some best
    /\ forall i x, [ 1 # 4; 3 # 4; 3 # 4 ]%Q !! i = Some x -> (x <= best)%Q.
Proof.
  apply (@rank_best_first (table_vectorizer score_table) ties_in_order
           "python machine learning engineer" [1; 0; 2] 1%Z three_jobs
           [ "python machine learning engineer"; "sql pipelines";
             "python machine learning"; "python machine learning" ]
           [ 1 # 4; 3 # 4; 3 # 4 ]%Q
           (table_vectorizer_sound score_table) ties_in_order_sound).
  - lia.
  - discriminate.
  - reflexivity.
  - reflexivity.
Defined.

(** ** Harvester: what every returned list looks like *)

Lemma odict_set_NoDup {V} (k : string) (v : V) (d : odict V) :
  List.NoDup (odict_keys d) -> List.NoDup (odict_keys (odict_set k v d)).
Proof.
  intros Hnd. rewrite odict_keys_set.
  destruct (existsb (String.eqb k) (odict_keys d)) eqn:E; [exact Hnd|].
  apply NoDup_ListNoDup, NoDup_app. repeat split.
  - apply NoDup_ListNoDup, Hnd.
  - intros x Hx Hx'. apply list_elem_of_In in Hx.
    apply list_elem_of_In in Hx'. destruct Hx' as [<-|[]].
    apply existsb_eqb_In in Hx. congruence.
  - apply NoDup_singleton.
Qed.

Lemma split_head_no_sep (sep : ascii) (s : string) :
  contains (String sep EmptyString) (split_head sep s) = false.
Proof.
  induction s as [|c s IH]; simpl; [reflexivity|].
  destruct (Ascii.eqb c sep) eqn:E; [reflexivity|].
  simpl. rewrite IH, orb_false_r.
  destruct (ascii_dec sep c) as [->|]; [|reflexivity].
  rewrite Ascii.eqb_refl in E. discriminate.
Qed.

Lemma odict_set_keys_good {V} (P : string -> Prop) (k : string) (v : V)
    (d : odict V) :
  P k -> Forall P (odict_keys d) -> Forall P (odict_keys (odict_set k v d)).
Proof.
  intros Hk Hd. rewrite odict_keys_set.
  destruct (existsb _ _); [exact Hd|]. apply Forall_app. auto.
Qed.

Section HarvesterShape.
Context {B : Browser}.

Lemma odict_set_clean (h : string) (links : odict bool) :
  clean_links links -> clean_links (odict_set (canonical h) true links).
Proof.
  intros [Hnd Hq]. split.
  - apply odict_set_NoDup, Hnd.
  - apply odict_set_keys_good; [apply (split_head_no_sep "?") | exact Hq].
Qed.

Lemma scan_anchors_clean (max_links : Z) (anchors : list elem) :
  forall links w w' t links',
    clean_links links ->
    scan_anchors max_links anchors links w = (w', t, Ok links') ->
    clean_links links'.
Proof.
  induction anchors as [|a rest IH]; intros links w w' t links' Hc Hrun.
  - injection Hrun as _ _ <-. exact Hc.
  - simpl in Hrun. apply bind_ok_inv in Hrun.
    destruct Hrun as (w1 & t1 & href & t2 & _ & Hk & _).
    destruct (is_job_href href).
    + pose proof (odict_set_clean (default "" href) links Hc) as Hc'.
      destruct (len _ >=? max_links)%Z.
      * injection Hk as _ _ <-. exact Hc'.
      * eapply IH; eassumption.
    + eapply IH; eassumption.
Qed.

Lemma harvest_loop_clean (fuel : nat) (max_links : Z) :
  forall links last_height tries w w' t links',
    clean_links links ->
    harvest_loop fuel max_links links last_height tries w
    = (w', t, Ok (Some links')) ->
    clean_links links'.
Proof.
  induction fuel as [|fuel IH];
    intros links last_height tries w w' t links' Hc Hrun;
    rewrite harvest_loop_unfold in Hrun;
    destruct (negb _); try (injection Hrun as _ _ <-; exact Hc);
    [discriminate|].
  apply bind_ok_inv in Hrun.
  destruct Hrun as (w1 & t1 & anchors & t2 & _ & Hrun & _).
  apply bind_ok_inv in Hrun.
  destruct Hrun as (w2 & t3 & links1 & t4 & Hscan & Hrun & _).
  apply bind_ok_inv in Hrun. destruct Hrun as (w3 & ? & ? & ? & _ & Hrun & _).
  apply bind_ok_inv in Hrun. destruct Hrun as (w4 & ? & ? & ? & _ & Hrun & _).
  apply bind_ok_inv in Hrun.
  destruct Hrun as (w5 & ? & new_height & ? & _ & Hrun & _).
  pose proof (scan_anchors_clean _ _ _ _ _ _ _ Hc Hscan) as Hc1.
  destruct (new_height =? last_height)%Z; eapply IH; eassumption.
Qed.

End HarvesterShape.

(** X7.  On every page and for every [max_links], the list the
    harvester returns has no link twice and no link with a query part:
    every entry is what [split("?")[0]] left of an anchor target. *)
Theorem harvest_returns_clean_links {B : Browser} (fuel : nat) (max_links : Z)
    (w w' : world) (t : list event) (ls : list string) :
  scroll_container_collect_links fuel max_links w = (w', t, Ok (Some ls)) ->
  List.NoDup ls /\ Forall (fun k => contains "?" k = false) ls.
Proof.
  unfold scroll_container_collect_links. intros Hrun.
  apply bind_ok_inv in Hrun. destruct Hrun as (w1 & ? & h & ? & _ & Hrun & _).
  apply bind_ok_inv in Hrun. destruct Hrun as (w2 & ? & r & ? & Hloop & Hret & _).
  injection Hret as _ _ Hr. destruct r as [links|]; [|discriminate].
  injection Hr as <-.
  assert (H0 : clean_links []) by (split; constructor).
  apply (harvest_loop_clean _ _ _ _ _ _ _ _ _ H0 Hloop).
Qed.

Lemma results_site_harvest :
  snd (@scroll_container_collect_links (sim results_site) 25 5 0)
  = Ok (Some [ "https://www.linkedin.com/jobs/view/101";
               "https://www.linkedin.com/jobs/view/202" ]).
Proof. vm_compute. reflexivity. Qed.

Lemma harvest_returns_clean_links_witness :
  List.NoDup [ "https://www.linkedin.com/jobs/view/101";
               "https://www.linkedin.com/jobs/view/202" ]
  /\ Forall (fun k => contains "?" k = false)
            [ "https://www.linkedin.com/jobs/view/101";
              "https://www.linkedin.com/jobs/view/202" ].
Proof.
  pose proof results_site_harvest as Hvalue.
  destruct (@scroll_container_collect_links (sim results_site) 25 5 0)
    as [[w' t] r] eqn:Hrun.
  simpl in Hvalue. subst r.
  exact (@harvest_returns_clean_links (sim results_site) 25 5%Z 0 w' t _ Hrun).
Defined.

(** X8.  With [max_links] zero or negative the loop body never runs:
    the harvester measures the page once, neither looks for anchors nor
    scrolls, and returns the empty list. *)
Theorem harvest_nothing_asked {B : Browser} (fuel : nat) (max_links : Z)
    (w w1 : world) (h : Z) :
  (max_links <= 0)%Z ->
  execute_script js_scroll_height w = (w1, Ok h) ->
  scroll_container_collect_links fuel max_links w
  = (w1, [EScript js_scroll_height], Ok (Some [])).
Proof.
  intros Hmax Hh. unfold scroll_container_collect_links.
  erewrite bind_ok by (unfold script, action; rewrite Hh; reflexivity).
  rewrite harvest_loop_unfold.
  replace (len (@nil (string * bool)) <? max_links)%Z with false
    by (symmetry; apply Z.ltb_ge; unfold len; simpl; lia).
  reflexivity.
Qed.

Lemma harvest_nothing_asked_witness :
  @scroll_container_collect_links (sim results_site) 25 0 0
  = (0, [EScript js_scroll_height], Ok (Some [])).
Proof.
  apply (@harvest_nothing_asked (sim results_site) 25 0%Z 0 0 900%Z).
  - lia.
  - reflexivity.
Defined.

Section HarvesterFull.
Context {B : Browser}.

(** The scan with its [break]: the keys held when the scan ends are the
    first [max_links] of those a scan without a limit would hold. *)
Lemma scan_anchors_take (max_links : Z) (w : world) anchors hrefs :
  Forall2 (fun a h => get_attribute a "href" w = Ok h) anchors hrefs ->
  forall links,
    let ks := map (fun h => canonical (default "" h))
                  (List.filter is_job_href hrefs) in
    let keys := odict_keys links ++ first_seen_from (odict_keys links) ks in
    (len links < max_links)%Z ->
    exists t links',
      scan_anchors max_links anchors links w = (w, t, Ok links')
      /\ odict_keys links' = take (Z.to_nat max_links) keys
      /\ scroll_requests t = 0.
Proof.
  induction 1 as [|a h anchors hrefs Ha _ IH]; intros links ks keys Hlt.
  - exists [], links. subst keys ks. simpl. rewrite app_nil_r.
    split; [reflexivity|]. split; [|reflexivity].
    rewrite take_ge; [reflexivity|].
    rewrite odict_keys_length. unfold len in Hlt. lia.
  - simpl scan_anchors. unfold bind at 1, attribute, query. rewrite Ha.
    subst ks. simpl List.filter in *.
    destruct (is_job_href h) eqn:Hjob.
    + simpl map in *. set (k := canonical (default "" h)) in *.
      set (ks := map _ (List.filter is_job_href hrefs)) in *.
      assert (Hkeys : odict_keys (odict_set k true links)
                      ++ first_seen_from (odict_keys (odict_set k true links)) ks
                      = keys).
      { subst keys. rewrite odict_keys_set. simpl.
        destruct (existsb (String.eqb k) (odict_keys links)); [reflexivity|].
        rewrite <- app_assoc. reflexivity. }
      pose proof (odict_set_length k true links) as Hgrow.
      destruct (len (odict_set k true links) >=? max_links)%Z eqn:Hge.
      * exists [EGetAttribute a "href"], (odict_set k true links).
        split; [reflexivity|]. split; [|reflexivity].
        rewrite Z.geb_leb in Hge. apply Z.leb_le in Hge.
        rewrite <- Hkeys. rewrite take_app_le
          by (rewrite odict_keys_length; unfold len in *; lia).
        rewrite take_ge; [reflexivity|].
        rewrite odict_keys_length. unfold len in *. lia.
      * rewrite Z.geb_leb in Hge. apply Z.leb_gt in Hge.
        destruct (IH (odict_set k true links) Hge) as (t & links' & Hrun & Hk & Ht).
        rewrite Hrun. exists (EGetAttribute a "href" :: t), links'.
        repeat split; [| exact Ht]. fold ks in Hk. rewrite Hk, Hkeys. reflexivity.
    + destruct (IH links Hlt) as (t & links' & Hrun & Hk & Ht).
      rewrite Hrun. exists (EGetAttribute a "href" :: t), links'.
      repeat split; assumption.
Qed.

End HarvesterFull.

(** X9.  When the page, at the first look, shows at least [max_links]
    different job links, the harvester stops after that one round (one
    scroll request) and returns exactly the first [max_links] of them, in
    the order they were first seen. *)
Theorem harvest_reaches_max_links {B : Browser} (fuel : nat) (max_links : Z)
    (w0 w1 w2 w3 : world) (h z h' : Z) (ks : list string) :
  (0 < max_links <= len (first_seen ks))%Z ->
  1 <= fuel ->
  execute_script js_scroll_height w0 = (w1, Ok h) ->
  page_job_links w1 ks ->
  execute_script js_scroll_by w1 = (w2, Ok z) ->
  execute_script js_scroll_height (time_sleep w2) = (w3, Ok h') ->
  exists t,
    scroll_container_collect_links fuel max_links w0
    = (w3, t, Ok (Some (take (Z.to_nat max_links) (first_seen ks))))
    /\ scroll_requests t = 1.
Proof.
  intros [Hpos Hmax] Hfuel Hh (anchors & hrefs & Hfind & Hattr & ->) Hscroll Hh'.
  destruct fuel as [|fuel]; [lia|].
  destruct (scan_anchors_take max_links w1 anchors hrefs Hattr [])
    as (t1 & links1 & Hscan & Hk1 & Ht1); [unfold len; simpl; lia|].
  simpl odict_keys in Hk1. simpl app in Hk1.
  fold (first_seen (map (fun h => canonical (default "" h))
                        (List.filter is_job_href hrefs))) in Hk1.
  set (ks := map _ (List.filter is_job_href hrefs)) in *.
  assert (Hlen1 : len links1 = max_links).
  { unfold len in *. rewrite <- odict_keys_length, Hk1, length_take. lia. }
  assert (Hstop : forall lh tr,
             harvest_loop fuel max_links links1 lh tr w3
             = (w3, [], Ok (Some links1))).
  { intros lh tr. rewrite harvest_loop_unfold.
    replace (len links1 <? max_links)%Z with false
      by (symmetry; apply Z.ltb_ge; lia).
    reflexivity. }
  assert (Hloop : harvest_loop (Datatypes.S fuel) max_links [] h 0 w1
                  = (w3,
                     [EFindElements anchors_locator] ++ t1
                     ++ [EScript js_scroll_by] ++ [ESleep]
                     ++ [EScript js_scroll_height] ++ [],
                     Ok (Some links1))).
  { rewrite harvest_loop_unfold.
    replace (len (@nil (string * bool)) <? max_links)%Z with true
      by (symmetry; apply Z.ltb_lt; unfold len; simpl; lia).
    change (negb (true && (0 <? max_tries)%Z)) with false. cbv iota.
    erewrite bind_ok by (unfold find_all, query; rewrite Hfind; reflexivity).
    erewrite bind_ok by exact Hscan.
    erewrite bind_ok by (unfold script, action; rewrite Hscroll; reflexivity).
    erewrite bind_ok by reflexivity.
    erewrite bind_ok by (unfold script, action; rewrite Hh'; reflexivity).
    destruct (h' =? h)%Z; rewrite Hstop; reflexivity. }
  eexists. split.
  - unfold scroll_container_collect_links.
    erewrite bind_ok by (unfold script, action; rewrite Hh; reflexivity).
    erewrite bind_ok by exact Hloop.
    simpl. rewrite Hk1. reflexivity.
  - rewrite !app_nil_r.
    change (scroll_requests
              ([EScript js_scroll_height] ++ [EFindElements anchors_locator]
               ++ t1 ++ [EScript js_scroll_by] ++ [ESleep]
               ++ [EScript js_scroll_height]) = 1).
    rewrite !scroll_requests_app, Ht1. reflexivity.
Qed.

Lemma results_links_enough : (0 < 1 <= len (first_seen results_links))%Z.
Proof. vm_compute. split; [reflexivity | discriminate]. Qed.

Lemma harvest_reaches_max_links_witness :
  exists t,
    @scroll_container_collect_links (sim results_site) 1 1 0
    = (1, t, Ok (Some [ "https://www.linkedin.com/jobs/view/101" ]))
    /\ scroll_requests t = 1.
Proof.
  apply (@harvest_reaches_max_links (sim results_site) 1 1%Z 0 0 1 1
           900%Z 0%Z 900%Z results_links).
  - exact results_links_enough.
  - lia.
  - reflexivity.
  - apply results_site_links.
  - reflexivity.
  - reflexivity.
Defined.
